(** * Subscriptions, invoices and payment reconciliation

    A shallow embedding of [src/common/subscriptions.js]: the storage tables
    are finite maps keyed by their primary keys, every asynchronous function
    is a state-passing function returning how its promise settles, and the
    replies of the collaborators (Chia RPC bridge, mailer, clock, uuid) are
    read from an environment record.

    Modelling choices, each local to the definition it concerns:
    - JavaScript numbers that carry money are IEEE 754 doubles, the
      primitive floats of Rocq, added and compared as the code does it, in
      the order of the code;
    - the numeric columns of the tables hold the double they were given,
      and a value that is [undefined] is stored as NULL;
    - a [Date] is kept as its local calendar fields, in a time zone without
      daylight saving;
    - storage queries themselves do not fail, except for a duplicate primary
      key on a plain INSERT. *)

From Stdlib Require Import ZArith Floats Permutation.
From stdpp Require Import gmap strings list fin_maps.

Local Open Scope string_scope.
Local Open Scope Z_scope.

(** ** JavaScript values *)

Inductive js_error : Type :=
| Error (msg : string)
| TypeError (msg : string).

(** The numbers of JavaScript that carry money. *)
Module JsNumber.

(** [!x]: a number is falsy when it is [+0], [-0] or [NaN]. *)
Definition falsy (x : float) : bool := (x =? 0)%float || PrimFloat.is_nan x.

(** [x >= y], where [y] was read from a column that may hold NULL: [null]
    counts as 0 in a comparison. *)
Definition ge (x : float) (y : option float) : bool :=
  (default 0%float y <=? x)%float.

End JsNumber.
Import JsNumber.

(** The values kept in the JSON of a subscription and sent with the
    provisioning command. *)
Inductive json : Type :=
| JNumber (n : Z)
| JString (s : string).

(** The property names every plain object inherits from [Object.prototype]:
    [object[key]] finds a value for them, a function or an object, whatever
    the object holds of its own. *)
Definition Object_prototype : list string :=
  ["constructor"; "__proto__"; "hasOwnProperty"; "isPrototypeOf";
   "propertyIsEnumerable"; "toLocaleString"; "toString"; "valueOf";
   "__defineGetter__"; "__defineSetter__"; "__lookupGetter__"; "__lookupSetter__"].

(** How the promise returned by an [async] function ends.  [Pending] is a
    promise that is neither resolved nor rejected: what
    [new Promise(async (resolve, reject) => ...)] leaves behind when its
    executor throws outside of a [try], since the exception rejects the
    promise of the executor, which nobody holds, and not the one returned. *)
Inductive promise (A : Type) : Type :=
| Resolved (a : A)
| Rejected (e : js_error)
| Pending.
Arguments Resolved {A} a.
Arguments Rejected {A} e.
Arguments Pending {A}.

(** The reply of [sendChiaRPCCommand]: the call may reject, may answer with
    nothing or with an object that has no [result], or may carry a result. *)
Inductive rpc_reply (A : Type) : Type :=
| RpcRejects (e : js_error)
| RpcNoResult
| RpcResult (r : A).
Arguments RpcRejects {A} e.
Arguments RpcNoResult {A}.
Arguments RpcResult {A} r.

(** [(await sendChiaRPCCommand(...))?.result] *)
Definition result_of {A} (r : rpc_reply A) : js_error + option A :=
  match r with
  | RpcRejects e => inl e
  | RpcNoResult => inr None
  | RpcResult a => inr (Some a)
  end.

(** ** Dates *)

Module JsDate.

Record Date : Type := mkDate {
  year : Z;
  month : Z;       (* 0 = January ... 11 = December, as getMonth *)
  day : Z;         (* day of the month, from 1 *)
  msec : Z         (* milliseconds since local midnight *)
}.

Definition is_leap (y : Z) : bool :=
  (y mod 4 =? 0) && (negb (y mod 100 =? 0) || (y mod 400 =? 0)).

Definition days_in_month (y m : Z) : Z :=
  match m with
  | 1 => if is_leap y then 29 else 28
  | 3 | 5 | 8 | 10 => 30
  | _ => 31
  end.

Definition valid (d : Date) : Prop :=
  0 <= month d < 12 /\ 1 <= day d <= days_in_month (year d) (month d)
  /\ 0 <= msec d < 86400000.

(** MakeDay/MakeDate of ECMAScript for a day number that overshoots the
    month by less than the length of the following month: the surplus is
    carried into the next month, which is all that [setFullYear] on a valid
    date and [setDate(getDate() + 15)] can produce. *)
Definition MakeDate (y m d t : Z) : Date :=
  if d <=? days_in_month y m then mkDate y m d t
  else if m =? 11 then mkDate (y + 1) 0 (d - days_in_month y m) t
  else mkDate y (m + 1) (d - days_in_month y m) t.

Definition getFullYear (d : Date) : Z := year d.
Definition getDate (d : Date) : Z := day d.

Definition setFullYear (d : Date) (y : Z) : Date :=
  MakeDate y (month d) (day d) (msec d).

Definition setDate (d : Date) (n : Z) : Date :=
  MakeDate (year d) (month d) n (msec d).

(** [setHours(0, 0, 0, 0)] *)
Definition setHours0 (d : Date) : Date :=
  mkDate (year d) (month d) (day d) 0.

(** An order-preserving key, used for the comparisons the SQL engine makes
    on date columns. *)
Definition key (d : Date) : Z :=
  ((year d * 12 + month d) * 32 + day d) * 86400000 + msec d.

Definition leb (a b : Date) : bool := key a <=? key b.
Definition eqb (a b : Date) : bool := key a =? key b.

(** [BETWEEN lo AND hi] *)
Definition between (x lo hi : Date) : bool := leb lo x && leb x hi.

End JsDate.
Import JsDate.

(** ** Rows of the storage tables *)

Inductive subscription_status : Type :=
| pending | active | grace_period | terminated.

Inductive invoice_status : Type :=
| unpaid | paid.

#[global] Instance subscription_status_eq_dec : EqDecision subscription_status.
Proof. solve_decision. Defined.
#[global] Instance invoice_status_eq_dec : EqDecision invoice_status.
Proof. solve_decision. Defined.

(** The JSON kept in [subscriptions.data]: [{cmd, data: {...}}].  [cmd] is
    missing when it was [undefined] as the JSON was written; [payload] is
    the object under the key [data]. *)
Record subscription_data : Type := mkSubscriptionData {
  cmd : option string;
  payload : gmap string json
}.

Record subscription : Type := mkSubscription {
  id : Z;
  user_id : Z;
  product_key : string;
  start_date : Date;
  end_date : Date;
  status : subscription_status;
  data : subscription_data
}.

Record invoice : Type := mkInvoice {
  guid : string;
  subscription_id : option Z;      (* NULL when inserted from [undefined] *)
  issue_date : Date;
  due_date : Date;
  total_amount_due : option float;   (* NULL when inserted from [undefined] *)
  amount_paid : float;
  xch_payment_address : string;
  invoice_state : invoice_status   (* the [status] column *)
}.

Record payment : Type := mkPayment {
  invoice_guid : string;
  coin_name : string;
  amount : float;
  confirmed_at_height : Z;
  fee : Z
}.

Record user : Type := mkUser {
  email : string
}.

(** A transaction as listed by the Chia node, amounts in mojos. *)
Record transaction : Type := mkTransaction {
  name : string;
  tx_amount : float;
  confirmed : bool;
  tx_confirmed_at_height : Z;
  fee_amount : Z
}.

(** What [productsConfig[productKey]] gives when it is not [undefined]: an
    entry of the catalogue, or any other object; [product.cmd] and
    [product.cost] are [undefined] where the object has no such property. *)
Record Product : Type := mkProduct {
  product_cmd : option string;
  cost : option float
}.

(** ** Observable effects *)

Inductive event : Type :=
| ConsoleError (tag : string) (err : option js_error)
| EmailSent (to subject body : string)
| RpcCommand (command : option string) (arguments : gmap string json)
| UnhandledRejection (err : js_error)
| ConfirmPaymentCalled (g : string).   (* entry of confirmPayment, to count it *)

(** ** The store *)

Record state : Type := mkState {
  subscriptions : gmap Z subscription;
  invoices : gmap string invoice;
  payments : gmap (string * string) payment;
  users : gmap Z user;
  trace : list event
}.

Definition log (ev : event) (s : state) : state :=
  mkState (subscriptions s) (invoices s) (payments s) (users s) (trace s ++ [ev]).

Definition with_subscriptions (m : gmap Z subscription) (s : state) : state :=
  mkState m (invoices s) (payments s) (users s) (trace s).

Definition with_invoices (m : gmap string invoice) (s : state) : state :=
  mkState (subscriptions s) m (payments s) (users s) (trace s).

Definition with_payments (m : gmap (string * string) payment) (s : state) : state :=
  mkState (subscriptions s) (invoices s) m (users s) (trace s).

(** ** The collaborators

    What the outside world answers during one invocation.  A failure of the
    mailer is a rejection of the promise of [sendEmail], which is what the
    [try] around each of its calls is there for. *)
Record env : Type := mkEnv {
  now : Date;                                   (* new Date() *)
  uuidv4 : string;
  SERVICE_DOMAIN : string;                      (* app.config.json *)
  serviceDomain : string;                       (* the same file, as interpolated *)
  GET_NEW_PAYMENT_ADDRESS : rpc_reply string;
  GET_TRANSACTIONS : string -> rpc_reply (list transaction);
  (* sendChiaRPCCommand(rpc[cmd], {...}), None: it resolves *)
  activation : option string -> gmap string json -> option js_error;
  sendEmail : string -> option js_error         (* by recipient, None: delivered *)
}.

(** ** Column updates *)

Definition set_amount_paid (a : float) (i : invoice) : invoice :=
  mkInvoice (guid i) (subscription_id i) (issue_date i) (due_date i)
            (total_amount_due i) a (xch_payment_address i) (invoice_state i).

Definition set_invoice_state (st : invoice_status) (i : invoice) : invoice :=
  mkInvoice (guid i) (subscription_id i) (issue_date i) (due_date i)
            (total_amount_due i) (amount_paid i) (xch_payment_address i) st.

Definition set_status (st : subscription_status) (r : subscription) : subscription :=
  mkSubscription (id r) (user_id r) (product_key r) (start_date r) (end_date r)
                 st (data r).

Definition set_end_date (d : Date) (r : subscription) : subscription :=
  mkSubscription (id r) (user_id r) (product_key r) (start_date r) d
                 (status r) (data r).

(** ** createInvoice *)

(** The object [createInvoice] resolves with; it has an [id], not a [guid]. *)
Record created_invoice : Type := mkCreatedInvoice {
  ci_id : string;
  ci_subscription_id : option Z;
  ci_issue_date : Date;
  ci_due_date : Date;
  ci_amount : option float;
  ci_xch_payment_address : string;
  ci_status : invoice_status
}.

(** Modelled from the spec: the schema of [invoices] is not part of the
    sources.  [guid] is its key ("globally unique"), and [amount_paid], which
    the INSERT of [createInvoice] leaves out, starts as the running total 0.
    A value that is [undefined] is written as NULL. *)
Definition insert_invoice (row : invoice) (s : state) : js_error + state :=
  match invoices s !! guid row with
  | Some _ => inl (Error "ER_DUP_ENTRY")
  | None => inr (with_invoices (<[guid row := row]> (invoices s)) s)
  end.

Definition createInvoice (e : env) (userId : Z) (subscriptionId : option Z)
    (product : option Product) (s : state) : promise created_invoice * state :=
  let issueDate := now e in
  let dueDate := setFullYear issueDate (getFullYear issueDate + 1) in
  match product with
  | None =>
      (* product.cost on undefined, in the executor and outside the try *)
      (Pending,
       log (UnhandledRejection
              (TypeError "Cannot read properties of undefined (reading 'cost')")) s)
  | Some p =>
    let amount := cost p in
    match result_of (GET_NEW_PAYMENT_ADDRESS e) with
    | inl err => (Pending, log (UnhandledRejection err) s)
    | inr xchPaymentAddress =>
      match xchPaymentAddress with
      | None | Some "" =>
          (* throw, in the executor and outside the try *)
          (Pending,
           log (UnhandledRejection
                  (Error "Error retrieving payment address from Chia node.")) s)
      | Some xchPaymentAddress =>
        let invoiceId := uuidv4 e in
        let catch err st :=
          (Rejected err,
           log (ConsoleError "Error creating invoice or fetching invoice:" (Some err)) st) in
        match insert_invoice
                (mkInvoice invoiceId subscriptionId issueDate dueDate amount 0%float
                           xchPaymentAddress unpaid) s with
        | inl err => catch err s
        | inr s1 =>
          (* getUserBy("id", userId), undefined when there is no such user *)
          match users s1 !! userId with
          | None =>
              catch (TypeError "Cannot read properties of undefined (reading 'email')") s1
          | Some user =>
            let invoiceUrl :=
              "https://app." +:+ SERVICE_DOMAIN e +:+ "/invoices/" +:+ invoiceId in
            match sendEmail e (email user) with
            | Some err => catch err s1
            | None =>
              (Resolved (mkCreatedInvoice invoiceId subscriptionId issueDate dueDate
                                          amount xchPaymentAddress unpaid),
               log (EmailSent (email user) "Your Invoice"
                      ("Please pay the invoice at " +:+ invoiceUrl
                       +:+ " to activate or renew your subscription.")) s1)
            end
          end
        end
      end
    end
  end.

(** ** insertTransactionsAndCalculateSum *)

(** Modelled from the spec: the schema of [payments] is not part of the
    sources; the spec makes (invoice_guid, coin_name) unique, so that
    INSERT IGNORE does nothing when a row with that key is already there. *)
Definition insert_ignore_payment (row : payment)
    (m : gmap (string * string) payment) : gmap (string * string) payment :=
  match m !! (invoice_guid row, coin_name row) with
  | Some _ => m
  | None => <[(invoice_guid row, coin_name row) := row]> m
  end.

(** [transaction.amount / 1000000000000], a division of doubles. *)
Definition to_xch (mojos : float) : float := (mojos / 1000000000000)%float.

Definition payment_of (invoiceId : string) (t : transaction) : payment :=
  mkPayment invoiceId (name t) (to_xch (tx_amount t))
            (tx_confirmed_at_height t) (fee_amount t).

(** The [for ... of] loop, with [confirmedSum] as its accumulator. *)
Fixpoint insert_loop (transactions : list transaction) (invoiceId : string)
    (confirmedSum : float) (s : state) : float * state :=
  match transactions with
  | [] => (confirmedSum, s)
  | t :: rest =>
    if confirmed t then
      insert_loop rest invoiceId (confirmedSum + to_xch (tx_amount t))%float
        (with_payments (insert_ignore_payment (payment_of invoiceId t) (payments s)) s)
    else insert_loop rest invoiceId confirmedSum s
  end.

Definition insertTransactionsAndCalculateSum (transactions : list transaction)
    (invoiceId : string) (s : state) : float * state :=
  insert_loop transactions invoiceId 0%float s.

(** ** confirmPayment

    [subscription.data] is taken to hold the JSON that [createSubscription]
    wrote, so that [JSON.parse] succeeds. *)

(** [{subscriptionId: subscription.id, ...subscriptionData.data}]: a key of
    the stored data takes the place of the one written before the spread. *)
Definition activation_arguments (subscription : subscription) : gmap string json :=
  payload (data subscription) ∪ {["subscriptionId" := JNumber (id subscription)]}.


Definition confirmPayment (e : env) (g : string) (s : state) : promise Z * state :=
  let s := log (ConfirmPaymentCalled g) s in
  (* UPDATE invoices SET status = 'paid' WHERE guid = :guid *)
  match invoices s !! g with
  | None =>
      (Rejected (Error "No invoice found with the provided GUID"),
       log (ConsoleError "No invoice found with the provided GUID" None) s)
  | Some inv =>
    let s1 := with_invoices (<[g := set_invoice_state paid inv]> (invoices s)) s in
    (* SELECT s.* FROM subscriptions s JOIN invoices i ON s.id = i.subscription_id *)
    match subscription_id inv ≫= (λ sid, subscriptions s1 !! sid) with
    | None =>
        (Rejected (Error "Subscription not found."),
         log (ConsoleError "Error fetching subscription." None) s1)
    | Some subscription =>
      let s2 :=
        with_subscriptions
          (alter (set_status active) (id subscription) (subscriptions s1)) s1 in
      let subscriptionData := data subscription in
      let s3 :=
        log (RpcCommand (cmd subscriptionData) (activation_arguments subscription)) s2 in
      match activation e (cmd subscriptionData) (activation_arguments subscription) with
      | Some err =>
          (Rejected err,
           log (ConsoleError "Error updating invoice or subscription:" (Some err)) s3)
      | None => (Resolved (id subscription), s3)
      end
    end
  end.

(** ** checkForPayment *)

Definition checkForPayment (e : env) (invoiceId : string) (s : state)
    : promise invoice * state :=
  match invoices s !! invoiceId with
  | None =>
      (Rejected (Error "No invoice found with the provided GUID"),
       log (ConsoleError "No invoice found with the provided GUID" None) s)
  | Some invoice =>
    if decide (invoice_state invoice = paid) then (Resolved invoice, s)
    else
      let xchPaymentAddress := xch_payment_address invoice in
      let catch err st :=
        (Rejected err, log (ConsoleError "Error fetching invoice:" (Some err)) st) in
      match result_of (GET_TRANSACTIONS e xchPaymentAddress) with
      | inl err => catch err s
      | inr None =>
          catch (Error ("Error retrieving transactions from Chia node. For "
                        +:+ xchPaymentAddress)) s
      | inr (Some addressTransactions) =>
        let (totalXchPaid, s1) :=
          insertTransactionsAndCalculateSum addressTransactions invoiceId s in
        (* !totalXchPaid *)
        if falsy totalXchPaid then
          catch (Error "Error retrieving balance from Chia node.") s1
        else
          (* UPDATE invoices SET amount_paid = :amount_paid WHERE guid = :invoiceId *)
          let s2 :=
            with_invoices
              (alter (set_amount_paid totalXchPaid) invoiceId (invoices s1)) s1 in
          (* totalXchPaid >= invoice.total_amount_due *)
          if ge totalXchPaid (total_amount_due invoice) then
            match confirmPayment e invoiceId s2 with
            | (Resolved _, s3) => (Resolved invoice, s3)
            | (Rejected err, s3) => (Rejected err, s3)
            | (Pending, s3) => (Pending, s3)
            end
          else (Resolved invoice, s2)
      end
  end.

(** A sequence of polls, each with the invoice it looks at and the answers
    the collaborators give during it. *)
Fixpoint run_polls (polls : list (env * string)) (s : state) : state :=
  match polls with
  | [] => s
  | (e, invoiceId) :: rest => run_polls rest (checkForPayment e invoiceId s).2
  end.

(** ** renewSubscription *)

Definition renewSubscription (subscriptionId : Z) (s : state)
    : promise subscription * state :=
  match subscriptions s !! subscriptionId with
  | None =>
      (Rejected (Error "Subscription not found"),
       log (ConsoleError "Error fetching subscription" None) s)
  | Some subscription =>
    if decide (status subscription = terminated) then
      (Rejected (Error "Cannot renew a terminated subscription"),
       log (ConsoleError "Cannot renew a terminated subscription" None) s)
    else
      let newEndDate := end_date subscription in
      let newEndDate := setFullYear newEndDate (getFullYear newEndDate + 1) in
      (* UPDATE subscriptions SET end_date = :newEndDate WHERE id = :subscriptionId *)
      (Resolved (set_end_date newEndDate subscription),
       with_subscriptions
         (alter (set_end_date newEndDate) subscriptionId (subscriptions s)) s)
  end.

(** ** The batch scans *)

(** [SELECT s.*, u.email FROM subscriptions s JOIN users u ON s.user_id = u.id
    WHERE ...], the rows in the order of the map, SQL promising none. *)
Definition select_with_email (where_ : subscription -> bool) (s : state)
    : list (subscription * string) :=
  omap (λ kr : Z * subscription,
          if where_ kr.2 then (λ u, (kr.2, email u)) <$> users s !! user_id kr.2
          else None)
       (map_to_list (subscriptions s)).

(** One callback of [rows.map(async (subscription) => ...)] in
    [checkSubscriptionsForExpiration]; the boolean tells whether its promise
    settles.  [createInvoice] is called with the subscription id alone. *)
Definition expiration_callback (e : env) (row_env : Z -> env)
    (row : subscription * string) (s : state) : bool * state :=
  let (subscription, address) := row in
  match createInvoice (row_env (id subscription)) (id subscription) None None s with
  | (Resolved invoice, s1) =>
    (* invoice.guid is undefined: the object has an id *)
    let invoiceUrl :=
      "https://app." +:+ serviceDomain e +:+ "/invoices/" +:+ "undefined" in
    match sendEmail e address with
    | None =>
        (true,
         log (EmailSent address "Your Subscription Is Expiring Soon"
                ("Your subscription is expiring soon. Please pay the invoice at "
                 +:+ invoiceUrl +:+ " to renew your subscription.")) s1)
    | Some err =>
        (true, log (ConsoleError "Error creating invoice or sending email:" (Some err)) s1)
    end
  | (Rejected err, s1) =>
      (true, log (ConsoleError "Error creating invoice or sending email:" (Some err)) s1)
  | (Pending, s1) => (false, s1)
  end.

Fixpoint expiration_callbacks (e : env) (row_env : Z -> env)
    (rows : list (subscription * string)) (s : state) : bool * state :=
  match rows with
  | [] => (true, s)
  | row :: rest =>
    let (settled, s1) := expiration_callback e row_env row s in
    let (all_settled, s2) := expiration_callbacks e row_env rest s1 in
    (settled && all_settled, s2)
  end.

Definition expiring (currentDate expirationDate : Date) (r : subscription) : bool :=
  bool_decide (status r = active) && between (end_date r) currentDate expirationDate.

Definition checkSubscriptionsForExpiration (e : env) (row_env : Z -> env) (s : state)
    : promise unit * state :=
  let currentDate := now e in
  let expirationDate := setDate currentDate (getDate currentDate + 15) in
  let rows := select_with_email (expiring currentDate expirationDate) s in
  (* await Promise.all(invoicePromises) *)
  let (all_settled, s1) := expiration_callbacks e row_env rows s in
  if all_settled then (Resolved tt, s1) else (Pending, s1).

Fixpoint grace_emails (e : env) (rows : list (subscription * string)) (s : state)
    : state :=
  match rows with
  | [] => s
  | (subscription, address) :: rest =>
    grace_emails e rest
      match sendEmail e address with
      | None =>
          log (EmailSent address "Your Subscription Has Expired"
                 "Your subscription has expired. You have a grace period of 15 days to renew your subscription.") s
      | Some err =>
          log (ConsoleError "Error sending grace period email:" (Some err)) s
      end
  end.

(** [WHERE s.status = 'active' AND s.end_date = :currentDate] *)
Definition expired_on (currentDate : Date) (r : subscription) : bool :=
  bool_decide (status r = active) && JsDate.eqb (end_date r) currentDate.

Definition setSubscriptionsToGracePeriod (e : env) (s : state) : promise Z * state :=
  let currentDate := setHours0 (now e) in
  let rows := select_with_email (expired_on currentDate) s in
  match rows with
  | [] => (Resolved 0, s)
  | _ =>
    let subscriptionIds := (λ row : subscription * string, id row.1) <$> rows in
    (* UPDATE subscriptions SET status = 'grace_period' WHERE id IN (:subscriptionIds) *)
    let s1 :=
      with_subscriptions
        (foldr (alter (set_status grace_period)) (subscriptions s) subscriptionIds) s in
    let affectedRows :=
      Z.of_nat (length (filter (λ i, is_Some (subscriptions s !! i))
                               (remove_dups subscriptionIds))) in
    (Resolved affectedRows, grace_emails e rows s1)
  end.

(** ** terminateSubscription

    An [async] function without a promise of its own: what it throws rejects
    the promise it returns, after the [catch] has logged it. *)
Definition terminateSubscription (subscriptionId : Z) (s : state)
    : promise subscription * state :=
  match subscriptions s !! subscriptionId with
  | None =>
      let err := Error "Subscription not found" in
      (Rejected err,
       log (ConsoleError "Error in terminateSubscription:" (Some err))
         (log (ConsoleError "Error fetching subscription: not found" None) s))
  | Some subscription =>
      (* UPDATE subscriptions SET status = 'terminated' WHERE id = :subscriptionId *)
      (Resolved (set_status terminated subscription),
       with_subscriptions
         (alter (set_status terminated) subscriptionId (subscriptions s)) s)
  end.

(** ** createSubscription *)

(** Modelled from the spec: the schema of [subscriptions] is not part of the
    sources.  [id] is its surrogate key; [insertId] is the id the storage
    assigns to the new row. *)
Definition insert_subscription (row : subscription) (s : state) : js_error + state :=
  match subscriptions s !! id row with
  | Some _ => inl (Error "ER_DUP_ENTRY")
  | None => inr (with_subscriptions (<[id row := row]> (subscriptions s)) s)
  end.

(** [productsConfig[productKey]] on the plain object that holds the
    catalogue: an entry of its own, else what every object inherits under
    that name, a value with neither [cmd] nor [cost], else [undefined]. *)
Definition property (productsConfig : gmap string Product) (productKey : string)
    : option Product :=
  match productsConfig !! productKey with
  | Some product => Some product
  | None =>
      if bool_decide (productKey ∈ Object_prototype) then Some (mkProduct None None)
      else None
  end.

(** [{userId, ...data}]: a [userId] key of the caller's data takes the place
    of the user id. *)
Definition subscription_payload (userId : Z) (data : gmap string json)
    : gmap string json :=
  data ∪ {["userId" := JNumber userId]}.

(** [productsConfig] is what [getConfigurationFile("products.config.json")]
    resolves with, [startDate] the [new Date()] of this function, and [e]
    what the collaborators answer to the [createInvoice] it calls. *)
Definition createSubscription (productsConfig : gmap string Product) (insertId : Z)
    (startDate : Date) (e : env) (userId : Z) (productKey : string)
    (data : gmap string json) (s : state) : promise Z * state :=
  let endDate := setFullYear startDate (getFullYear startDate + 1) in
  match property productsConfig productKey with
  | None => (Rejected (Error "Product not found."), s)
  | Some product =>
    match insert_subscription
            (mkSubscription insertId userId productKey startDate endDate pending
                            (mkSubscriptionData (product_cmd product)
                               (subscription_payload userId data))) s with
    | inl err =>
        (Rejected err, log (ConsoleError "Error creating subscription:" (Some err)) s)
    | inr s1 =>
      let subscriptionId := insertId in
      match createInvoice e userId (Some subscriptionId) (Some product) s1 with
      | (Resolved _, s2) => (Resolved subscriptionId, s2)
      | (Rejected err, s2) =>
          (Rejected err,
           log (ConsoleError "Error creating invoice or sending email:" (Some err)) s2)
      | (Pending, s2) => (Pending, s2)
      end
    end
  end.

#[global] Instance js_error_eq_dec : EqDecision js_error.
Proof. solve_decision. Defined.
#[global] Instance json_eq_dec : EqDecision json.
Proof. solve_decision. Defined.
#[global] Instance event_eq_dec : EqDecision event.
Proof. solve_decision. Defined.

(** ** Vocabulary of the properties *)

(** How many times [confirmPayment] was entered for invoice [g]. *)
Definition settlements (g : string) (s : state) : nat :=
  length (filter (λ ev, ev = ConfirmPaymentCalled g) (trace s)).

(** The display-unit amounts of the confirmed transactions of a list, added
    up as doubles in the order of the list. *)
Definition confirmed_sum (transactions : list transaction) : float :=
  fold_left (λ acc t, if confirmed t then (acc + to_xch (tx_amount t))%float else acc)
            transactions 0%float.

(** The doubles of a list added up from 0, first to last. *)
Definition double_sum (l : list float) : float := fold_left PrimFloat.add l 0%float.

(** [SELECT amount FROM payments WHERE invoice_guid = :g], by key. *)
Definition amounts_of (g : string) (m : gmap (string * string) payment)
    : gmap (string * string) float :=
  amount <$> filter (λ kv : (string * string) * payment, kv.1.1 = g) m.

(** The [amount] values of the payment rows of invoice [g], in the order the
    table is read in. *)
Definition payment_amounts (g : string) (m : gmap (string * string) payment)
    : list float :=
  (map_to_list (amounts_of g m)).*2.

(** The stored [amount_paid] of an invoice. *)
Definition amount_paid_of (g : string) (s : state) : option float :=
  amount_paid <$> invoices s !! g.

(** The invariant of the spec: every invoice has paid what its payment rows
    add up to.  The sum of doubles depends on the order they are added in:
    the invariant asks for one order of the rows in which their amounts add
    up to the very double that is stored. *)
Definition ledger_consistent (s : state) : Prop :=
  ∀ g inv, invoices s !! g = Some inv ->
    ∃ amounts, amounts ≡ₚ payment_amounts g (payments s)
               /\ amount_paid inv = double_sum amounts.

(** The amounts of the transactions a call really inserts: confirmed, and
    with no row under their key yet.  This follows the words of the spec,
    not the source, to compare the two. *)
Fixpoint newly_ingested_sum (transactions : list transaction) (g : string)
    (m : gmap (string * string) payment) (sum : float) : float :=
  match transactions with
  | [] => sum
  | t :: rest =>
    if confirmed t then
      match m !! (g, name t) with
      | Some _ => newly_ingested_sum rest g m sum
      | None =>
          newly_ingested_sum rest g (<[(g, name t) := payment_of g t]> m)
                             (sum + to_xch (tx_amount t))%float
      end
    else newly_ingested_sum rest g m sum
  end.

(** The update as the spec words it: the running total grows by the amounts
    newly ingested by the call. *)
Definition increments_by_newly_ingested (e : env) (g : string) (s : state) : Prop :=
  ∀ inv l inv',
    invoices s !! g = Some inv ->
    GET_TRANSACTIONS e (xch_payment_address inv) = RpcResult l ->
    invoices (checkForPayment e g s).2 !! g = Some inv' ->
    (amount_paid inv' =? amount_paid inv + newly_ingested_sum l g (payments s) 0)%float
    = true.

(** The payments recorded for invoice [g] are all listed in [l], confirmed
    and with the amount they were recorded with, the same double. *)
Definition lists_recorded (g : string) (l : list transaction)
    (m : gmap (string * string) payment) : Prop :=
  ∀ c row, m !! (g, c) = Some row ->
    ∃ t, t ∈ l /\ confirmed t = true /\ name t = c
         /\ to_xch (tx_amount t) = amount row.

(** A gateway answer that keeps up with the ledger, for an invoice that is
    still unpaid: the confirmed transactions have pairwise different names,
    their total as the code computes it is neither zero nor not a number
    when there is one of them at all, and every payment already recorded
    for the invoice is listed again. *)
Definition cumulative_feed (e : env) (g : string) (s : state) : Prop :=
  ∀ inv l,
    invoices s !! g = Some inv ->
    invoice_state inv = unpaid ->
    GET_TRANSACTIONS e (xch_payment_address inv) = RpcResult l ->
    NoDup (name <$> filter (λ t, confirmed t = true) l)
    /\ (filter (λ t, confirmed t = true) l ≠ [] ->
        (confirmed_sum l =? 0)%float = false
        /\ PrimFloat.is_nan (confirmed_sum l) = false)
    /\ lists_recorded g l (payments s).

Fixpoint cumulative_run (polls : list (env * string)) (s : state) : Prop :=
  match polls with
  | [] => True
  | (e, g) :: rest =>
      cumulative_feed e g s /\ cumulative_run rest (checkForPayment e g s).2
  end.

(** The rows the loop of [insertTransactionsAndCalculateSum] tries to
    insert, with their keys. *)
Definition payment_rows (g : string) (transactions : list transaction)
    : list ((string * string) * payment) :=
  (λ t, ((g, name t), payment_of g t)) <$> filter (λ t, confirmed t = true) transactions.

(** The key of a payment row is made of its two key columns. *)
Definition payments_keyed (s : state) : Prop :=
  ∀ k row, payments s !! k = Some row -> k = (invoice_guid row, coin_name row).

(** [SELECT * FROM payments WHERE invoice_guid = :g AND coin_name = :c] *)
Definition rows_for (g c : string) (s : state) : list ((string * string) * payment) :=
  map_to_list
    (filter (λ kv : (string * string) * payment,
               invoice_guid kv.2 = g /\ coin_name kv.2 = c) (payments s)).

(** The key of a subscription row is its [id] column. *)
Definition subscriptions_keyed (s : state) : Prop :=
  ∀ k r, subscriptions s !! k = Some r -> id r = k.

(** The key of an invoice row is its [guid] column. *)
Definition invoices_keyed (s : state) : Prop :=
  ∀ g inv, invoices s !! g = Some inv -> guid inv = g.

(** Every row of the three tables sits under the key its columns give. *)
Definition well_keyed (s : state) : Prop :=
  subscriptions_keyed s /\ invoices_keyed s /\ payments_keyed s.

(** The four tables of two stores are the same; the traces may differ. *)
Definition same_tables (s s' : state) : Prop :=
  subscriptions s' = subscriptions s /\ invoices s' = invoices s
  /\ payments s' = payments s /\ users s' = users s.

(** How many times the provisioning command [c] was sent with the
    arguments [a]. *)
Definition dispatches (c : option string) (a : gmap string json) (s : state) : nat :=
  length (filter (λ ev, ev = RpcCommand c a) (trace s)).

(** The rows [setSubscriptionsToGracePeriod] selects. *)
Definition grace_rows (e : env) (s : state) : list (subscription * string) :=
  select_with_email (expired_on (setHours0 (now e))) s.

(** What the attempt to write to the user of a selected row leaves in the
    trace: the email sent, or the error logged. *)
Definition grace_mail (e : env) (row : subscription * string) : event :=
  match sendEmail e row.2 with
  | Some err => ConsoleError "Error sending grace period email:" (Some err)
  | None =>
      EmailSent row.2 "Your Subscription Has Expired"
        "Your subscription has expired. You have a grace period of 15 days to renew your subscription."
  end.

(** [n] renewals in a row. *)
Fixpoint renew_times (n : nat) (subscriptionId : Z) (s : state) : state :=
  match n with
  | O => s
  | S n => renew_times n subscriptionId (renewSubscription subscriptionId s).2
  end.

(** The dates of a subscription row are dates, the end not before the
    start. *)
Definition dates_ordered (r : subscription) : Prop :=
  valid (start_date r) /\ valid (end_date r)
  /\ JsDate.key (start_date r) <= JsDate.key (end_date r).

(** ** Sample data *)

Module Fixture.

Definition jan_1_2024 : Date := mkDate 2024 0 1 0.

Definition the_subscription : subscription :=
  mkSubscription 7 1 "basic" (mkDate 2023 0 1 0) jan_1_2024 grace_period
                 (mkSubscriptionData (Some "CREATE_MIRROR") {["userId" := JNumber 1]}).

Definition the_invoice : invoice :=
  mkInvoice "inv-1" (Some 7) jan_1_2024 (mkDate 2025 0 1 0) (Some 5%float) 0
            "xch1pay" unpaid.

Definition the_product : Product := mkProduct (Some "CREATE_MIRROR") (Some 5%float).

(** One subscription, its unpaid invoice of 5 XCH, no payment yet. *)
Definition fresh : state :=
  mkState {[7 := the_subscription]} {["inv-1" := the_invoice]} ∅
          {[1 := mkUser "ann@example.org"]} [].

(** The same, settled. *)
Definition settled : state :=
  with_invoices {["inv-1" := set_invoice_state paid the_invoice]} fresh.

(** A confirmed transaction of [xch] XCH. *)
Definition coin (n : string) (xch : float) : transaction :=
  mkTransaction n (xch * 1000000000000)%float true 100 0.

(** A world in which everything works and the node lists [l]. *)
Definition world (l : list transaction) : env :=
  mkEnv jan_1_2024 "inv-2" "example.org" "example.org" (RpcResult "xch1new")
        (λ _, RpcResult l) (λ _ _, None) (λ _, None).

(** [fresh] after a poll that saw coins A and Z, of 1 XCH each. *)
Definition after_first_poll : state :=
  (checkForPayment (world [coin "A" 1; coin "Z" 1]) "inv-1" fresh).2.

Definition smtp_down : js_error := Error "ECONNREFUSED".

(** The same world with the mailer down. *)
Definition world_without_mail : env :=
  mkEnv jan_1_2024 "inv-2" "example.org" "example.org" (RpcResult "xch1new")
        (λ _, RpcResult []) (λ _ _, None) (λ _, Some smtp_down).

(** The same world with a node that hands out no address. *)
Definition world_without_address : env :=
  mkEnv jan_1_2024 "inv-2" "example.org" "example.org" RpcNoResult
        (λ _, RpcResult []) (λ _ _, None) (λ _, None).

(** An active subscription that ends nine days from [jan_1_2024]. *)
Definition expiring_soon : state :=
  with_subscriptions
    {[7 := set_status active (set_end_date (mkDate 2024 0 10 0) the_subscription)]}
    fresh.

End Fixture.

(** More sample data, around the same subscription and invoice. *)
Module Sample.

(** The catalogue with its one product. *)
Definition catalogue : gmap string Product := {["basic" := Fixture.the_product]}.

(** A world in which everything works and the node lists one confirmed
    transaction of 6 XCH, one more than the invoice asks for. *)
Definition overpaying : env := Fixture.world [Fixture.coin "A" 6].

(** The same world, the provisioning command failing. *)
Definition provisioning_down : env :=
  mkEnv Fixture.jan_1_2024 "inv-2" "example.org" "example.org" (RpcResult "xch1new")
        (λ _, RpcResult [Fixture.coin "A" 6]) (λ _ _, Some (Error "ETIMEDOUT"))
        (λ _, None).

(** A node that lists two confirmed transactions, of 0.1 and 0.7 XCH, in
    mojos. *)
Definition two_parts : env :=
  Fixture.world [mkTransaction "A" 100000000000 true 100 0;
                 mkTransaction "B" 700000000000 true 101 0].

(** [Fixture.fresh] with 0.8 XCH due on its invoice. *)
Definition eight_tenths_due : state :=
  with_invoices
    {["inv-1" := mkInvoice "inv-1" (Some 7) Fixture.jan_1_2024 (mkDate 2025 0 1 0)
                           (Some (8 / 10)%float) 0 "xch1pay" unpaid]}
    Fixture.fresh.

(** A node that lists two confirmed transactions, of 5000 XCH and of one
    mojo less than 5000 XCH. *)
Definition one_mojo_short : env :=
  Fixture.world [mkTransaction "A" 5000000000000000 true 100 0;
                 mkTransaction "B" 4999999999999999 true 101 0].

(** [Fixture.fresh] with 10000 XCH due on its invoice. *)
Definition ten_thousand_due : state :=
  with_invoices
    {["inv-1" := mkInvoice "inv-1" (Some 7) Fixture.jan_1_2024 (mkDate 2025 0 1 0)
                           (Some 10000%float) 0 "xch1pay" unpaid]}
    Fixture.fresh.

(** [Fixture.fresh] without its subscription row. *)
Definition orphan : state := with_subscriptions ∅ Fixture.fresh.

(** [Fixture.fresh] with its subscription active and ending on
    [Fixture.jan_1_2024] at midnight. *)
Definition ending_today : state :=
  with_subscriptions {[7 := set_status active Fixture.the_subscription]} Fixture.fresh.

(** A new subscription for the user of [Fixture.fresh]: id 8, started on
    [Fixture.jan_1_2024]. *)
Definition subscribe (e : env) : promise Z * state :=
  createSubscription catalogue 8 Fixture.jan_1_2024 e 1 "basic" ∅ Fixture.fresh.

End Sample.

(** * Properties *)

(** ** The tests on the total *)

Lemma falsy_false x :
  (x =? 0)%float = false -> PrimFloat.is_nan x = false -> falsy x = false.
Proof. intros H0 Hn. unfold falsy. by rewrite H0, Hn. Qed.

Lemma falsy_true x :
  (x =? 0)%float = true \/ PrimFloat.is_nan x = true -> falsy x = true.
Proof.
  intros [H|H]; unfold falsy; rewrite H; [done|]. by destruct (x =? 0)%float.
Qed.

(** ** Ingestion *)

Lemma insert_loop_sum l g acc s :
  (insert_loop l g acc s).1 =
  fold_left (λ acc t, if confirmed t then (acc + to_xch (tx_amount t))%float else acc) l acc.
Proof.
  revert acc s. induction l as [|t l IH]; intros acc s; simpl; [done|].
  destruct (confirmed t); apply IH.
Qed.

Lemma insert_loop_frame l g acc s :
  let s' := (insert_loop l g acc s).2 in
  subscriptions s' = subscriptions s /\ invoices s' = invoices s
  /\ users s' = users s /\ trace s' = trace s.
Proof.
  revert acc s. induction l as [|t l IH]; intros acc s; simpl; [done|].
  destruct (confirmed t); [|apply IH].
  destruct (IH (acc + to_xch (tx_amount t))%float
               (with_payments (insert_ignore_payment (payment_of g t) (payments s)) s))
    as (?&?&?&?).
  done.
Qed.

Lemma insert_ignore_union (row : payment) (m M : gmap (string * string) payment) :
  insert_ignore_payment row m ∪ M
  = m ∪ <[(invoice_guid row, coin_name row) := row]> M.
Proof.
  unfold insert_ignore_payment.
  destruct (m !! (invoice_guid row, coin_name row)) eqn:Hk.
  - apply map_eq; intros k. rewrite !lookup_union.
    destruct (decide (k = (invoice_guid row, coin_name row))) as [->|Hne].
    + rewrite Hk, lookup_insert_eq. by destruct (M !! _).
    + by rewrite lookup_insert_ne.
  - by rewrite <- insert_union_l, insert_union_r.
Qed.

(** The payments table after the loop: what was there, and below it the rows
    of the confirmed transactions, the first of each name winning. *)
Lemma insert_loop_payments l g acc s :
  payments (insert_loop l g acc s).2
  = payments s ∪ list_to_map (payment_rows g l).
Proof.
  revert acc s. induction l as [|t l IH]; intros acc s; simpl.
  - unfold payment_rows. simpl. by rewrite (right_id_L ∅ (∪)).
  - unfold payment_rows. rewrite filter_cons.
    destruct (confirmed t) eqn:Hc; simpl.
    + rewrite IH. simpl. apply (insert_ignore_union (payment_of g t)).
    + apply IH.
Qed.

Lemma payment_rows_key g l k row :
  (k, row) ∈ payment_rows g l -> k.1 = g.
Proof.
  unfold payment_rows. intros Hin. apply list_elem_of_fmap in Hin.
  destruct Hin as (t & Heq & _). by inversion Heq.
Qed.

Lemma payment_rows_lookup_key g l k row :
  (list_to_map (payment_rows g l) : gmap (string * string) payment) !! k = Some row ->
  k.1 = g.
Proof.
  intros H. apply elem_of_list_to_map_2 in H. by eapply payment_rows_key.
Qed.

Lemma insert_loop_keeps l g acc s k row :
  payments s !! k = Some row -> payments (insert_loop l g acc s).2 !! k = Some row.
Proof.
  intros H. rewrite insert_loop_payments. by apply lookup_union_Some_l.
Qed.

Lemma insert_loop_other l g acc s k :
  k.1 ≠ g -> payments (insert_loop l g acc s).2 !! k = payments s !! k.
Proof.
  intros Hne. rewrite insert_loop_payments, lookup_union.
  destruct (list_to_map (payment_rows g l) !! k) as [row|] eqn:Hk.
  - apply payment_rows_lookup_key in Hk. done.
  - by destruct (payments s !! k).
Qed.

Lemma insert_loop_records l g acc s t :
  t ∈ l -> confirmed t = true ->
  is_Some (payments (insert_loop l g acc s).2 !! (g, name t)).
Proof.
  intros Hin Hc. rewrite insert_loop_payments.
  apply lookup_union_is_Some. right.
  apply not_eq_None_Some. intros Hnone.
  apply not_elem_of_list_to_map in Hnone. apply Hnone.
  apply list_elem_of_fmap. exists ((g, name t), payment_of g t). split; [done|].
  unfold payment_rows. apply list_elem_of_fmap. exists t. split; [done|].
  by apply list_elem_of_filter.
Qed.

(** ** The footprint of confirmPayment and checkForPayment *)

Lemma settlements_log g ev s :
  settlements g (log ev s)
  = (settlements g s + if decide (ev = ConfirmPaymentCalled g) then 1 else 0)%nat.
Proof.
  unfold settlements, log. simpl. rewrite filter_app, length_app. f_equal.
  rewrite filter_cons, filter_nil. by destruct (decide _).
Qed.

Lemma confirmPayment_effect e g s inv :
  invoices s !! g = Some inv ->
  let s' := (confirmPayment e g s).2 in
  invoices s' = <[g := set_invoice_state paid inv]> (invoices s)
  /\ payments s' = payments s
  /\ users s' = users s
  /\ (∀ g', settlements g' s'
            = (settlements g' s + if decide (g' = g) then 1 else 0)%nat)
  /\ (confirmPayment e g s).1 ≠ Pending.
Proof.
  intros Hinv. unfold confirmPayment. simpl. rewrite Hinv.
  assert (Hcount : ∀ g', settlements g' (log (ConfirmPaymentCalled g) s)
            = (settlements g' s + if decide (g' = g) then 1 else 0)%nat).
  { intros g'. rewrite settlements_log.
    destruct (decide (g' = g)) as [->|Hne].
    - by rewrite decide_True.
    - rewrite decide_False; [done|]. intros [=]. congruence. }
  destruct (subscription_id inv ≫= _) as [r|]; simpl.
  - destruct (activation e (cmd (data r)) (activation_arguments r)); simpl;
      (split_and!; [done..| |done]); intros g'; rewrite <- Hcount;
      unfold settlements; simpl; rewrite ?filter_app, ?length_app; simpl;
      rewrite ?filter_cons, ?filter_nil; simpl; lia.
  - split_and!; [done..| |done]. intros g'. rewrite <- Hcount.
    unfold settlements; simpl; rewrite ?filter_app, ?length_app; simpl.
    rewrite ?filter_cons, ?filter_nil; simpl; lia.
Qed.

Lemma settlements_trace g s s' :
  trace s' = trace s -> settlements g s' = settlements g s.
Proof. unfold settlements. by intros ->. Qed.

Lemma settlements_console g tag err s :
  settlements g (log (ConsoleError tag err) s) = settlements g s.
Proof. rewrite settlements_log, decide_False; [lia|done]. Qed.

(** What a poll of invoice [h] can touch. *)
Lemma checkForPayment_footprint e h s :
  let s' := (checkForPayment e h s).2 in
  users s' = users s
  /\ (∀ g, g ≠ h -> invoices s' !! g = invoices s !! g)
  /\ (∀ k, k.1 ≠ h -> payments s' !! k = payments s !! k)
  /\ (∀ k row, payments s !! k = Some row -> payments s' !! k = Some row)
  /\ (∀ g, g ≠ h -> settlements g s' = settlements g s)
  /\ (settlements h s' = settlements h s
      \/ (settlements h s' = S (settlements h s)
          /\ ∃ inv', invoices s' !! h = Some inv' /\ invoice_state inv' = paid))
  /\ (invoices s !! h = None -> invoices s' !! h = None).
Proof.
  unfold checkForPayment.
  destruct (invoices s !! h) as [inv|] eqn:Hinv.
  2:{ simpl. split_and!; try done.
      - intros g _. apply settlements_console.
      - left. apply settlements_console. }
  destruct (decide (invoice_state inv = paid)) as [Hp|Hp].
  { simpl. split_and!; try done. by left. }
  destruct (result_of _) as [err|[l|]]; simpl.
  1,3: (split_and!; try done;
        [intros g _; apply settlements_console | left; apply settlements_console]).
  unfold insertTransactionsAndCalculateSum.
  destruct (insert_loop l h 0%float s) as [total s1] eqn:Hloop.
  assert (Hs1 : s1 = (insert_loop l h 0%float s).2) by (by rewrite Hloop).
  destruct (insert_loop_frame l h 0%float s) as (Hsub & Hinvs & Husers & Htrace).
  rewrite <- Hs1 in Hsub, Hinvs, Husers, Htrace.
  assert (Hother : ∀ k, k.1 ≠ h -> payments s1 !! k = payments s !! k).
  { intros k Hk. rewrite Hs1. by apply insert_loop_other. }
  assert (Hkeep : ∀ k row, payments s !! k = Some row -> payments s1 !! k = Some row).
  { intros k row Hk. rewrite Hs1. by apply insert_loop_keeps. }
  destruct (falsy total).
  { simpl. split_and!; try done.
    - intros g Hg. by rewrite Hinvs.
    - intros g _. rewrite settlements_console. by apply settlements_trace.
    - left. rewrite settlements_console. by apply settlements_trace. }
  set (s2 := with_invoices (alter (set_amount_paid total) h (invoices s1)) s1).
  assert (Hs2 : ∀ g, g ≠ h -> invoices s2 !! g = invoices s !! g).
  { intros g Hg. simpl. by rewrite lookup_alter_ne, Hinvs. }
  destruct (ge total (total_amount_due inv)).
  2:{ simpl. split_and!; try done.
      - intros g _. by apply settlements_trace.
      - left. by apply settlements_trace. }
  assert (Hl2 : invoices s2 !! h = Some (set_amount_paid total inv)).
  { simpl. by rewrite lookup_alter_eq, Hinvs, Hinv. }
  destruct (confirmPayment_effect e h s2 _ Hl2) as (Hi3 & Hp3 & Hu3 & Hc3 & _).
  assert (Hfin : let s3 := (confirmPayment e h s2).2 in
    users s3 = users s
    /\ (∀ g, g ≠ h -> invoices s3 !! g = invoices s !! g)
    /\ (∀ k, k.1 ≠ h -> payments s3 !! k = payments s !! k)
    /\ (∀ k row, payments s !! k = Some row -> payments s3 !! k = Some row)
    /\ (∀ g, g ≠ h -> settlements g s3 = settlements g s)
    /\ (settlements h s3 = settlements h s
        \/ (settlements h s3 = S (settlements h s)
            /\ ∃ inv', invoices s3 !! h = Some inv' /\ invoice_state inv' = paid))
    /\ (Some inv = None -> invoices s3 !! h = None)).
  { simpl. split_and!; try done.
    - by rewrite Hu3.
    - intros g Hg. rewrite Hi3, lookup_insert_ne by done. by apply Hs2.
    - intros k Hk. rewrite Hp3. by apply Hother.
    - intros k row Hk. rewrite Hp3. by apply Hkeep.
    - intros g Hg. rewrite Hc3, decide_False by done.
      rewrite Nat.add_0_r. by apply settlements_trace.
    - right. split.
      + rewrite Hc3, decide_True by done.
        rewrite (settlements_trace h s s2) by done. lia.
      + eexists. rewrite Hi3, lookup_insert_eq. done. }
  destruct (confirmPayment e h s2) as [[?|?|] s3]; exact Hfin.
Qed.

(** The body of [checkForPayment] once the invoice is found unpaid and the
    node has answered with a list. *)
Lemma checkForPayment_unpaid e g s inv l :
  invoices s !! g = Some inv ->
  invoice_state inv = unpaid ->
  GET_TRANSACTIONS e (xch_payment_address inv) = RpcResult l ->
  let s1 := (insert_loop l g 0%float s).2 in
  let total := confirmed_sum l in
  let s2 := with_invoices (alter (set_amount_paid total) g (invoices s1)) s1 in
  checkForPayment e g s =
  if falsy total then
    (Rejected (Error "Error retrieving balance from Chia node."),
     log (ConsoleError "Error fetching invoice:"
            (Some (Error "Error retrieving balance from Chia node."))) s1)
  else if ge total (total_amount_due inv) then
    match confirmPayment e g s2 with
    | (Resolved _, s3) => (Resolved inv, s3)
    | (Rejected err, s3) => (Rejected err, s3)
    | (Pending, s3) => (Pending, s3)
    end
  else (Resolved inv, s2).
Proof.
  intros Hinv Hst Hget. unfold checkForPayment.
  rewrite Hinv, decide_False by (rewrite Hst; done).
  rewrite Hget. simpl. unfold insertTransactionsAndCalculateSum, confirmed_sum.
  rewrite <- (insert_loop_sum l g 0%float s).
  by destruct (insert_loop l g 0%float s) as [total s1].
Qed.

Lemma invoices_after_ingestion l g s :
  invoices (insert_loop l g 0%float s).2 = invoices s.
Proof. by destruct (insert_loop_frame l g 0%float s) as (_ & ? & _). Qed.

(** ** An invoice that is paid is final *)

Lemma checkForPayment_paid e g s inv :
  invoices s !! g = Some inv -> invoice_state inv = paid ->
  checkForPayment e g s = (Resolved inv, s).
Proof.
  intros Hinv Hp. unfold checkForPayment. by rewrite Hinv, decide_True.
Qed.

Lemma run_polls_paid polls g s inv :
  invoices s !! g = Some inv -> invoice_state inv = paid ->
  let s' := run_polls polls s in
  invoices s' !! g = Some inv
  /\ (∀ c, payments s' !! (g, c) = payments s !! (g, c))
  /\ settlements g s' = settlements g s.
Proof.
  revert s. induction polls as [|[e h] polls IH]; intros s Hinv Hp; simpl; [done|].
  destruct (decide (h = g)) as [->|Hne].
  - rewrite (checkForPayment_paid e g s inv) by done. simpl. by apply IH.
  - destruct (checkForPayment_footprint e h s) as (_ & Hi & Hpay & _ & Hset & _).
    destruct (IH (checkForPayment e h s).2) as (IH1 & IH2 & IH3);
      [by rewrite Hi | done |].
    split_and!; [done| |].
    + intros c. rewrite IH2. by apply Hpay.
    + rewrite IH3. by apply Hset.
Qed.

Lemma settlement_at_most_once polls g s :
  (settlements g (run_polls polls s) <= S (settlements g s))%nat.
Proof.
  revert s. induction polls as [|[e h] polls IH]; intros s; simpl; [lia|].
  destruct (checkForPayment_footprint e h s) as (_ & _ & _ & _ & Hset & Hown & _).
  destruct (decide (g = h)) as [->|Hne].
  - destruct Hown as [Hsame|(Hmore & inv' & Hinv' & Hp)].
    + rewrite <- Hsame. apply IH.
    + destruct (run_polls_paid polls h _ inv' Hinv' Hp) as (_ & _ & Hfin).
      rewrite Hfin. lia.
  - rewrite <- (Hset g Hne). apply IH.
Qed.

(** C3.  Once an invoice is paid, [checkForPayment] resolves with that very
    invoice and leaves the store as it is: no payment row, no subscription
    update, no effect.  Over any sequence of polls the paid invoice, its
    payment rows and the number of settlements stay what they are, and from
    any store [confirmPayment] is entered at most once for an invoice. *)
Theorem checkForPayment_paid_is_noop g s inv :
  invoices s !! g = Some inv ->
  invoice_state inv = paid ->
  (∀ e, checkForPayment e g s = (Resolved inv, s))
  /\ (∀ polls,
        invoices (run_polls polls s) !! g = Some inv
        /\ (∀ c, payments (run_polls polls s) !! (g, c) = payments s !! (g, c))
        /\ settlements g (run_polls polls s) = settlements g s)
  /\ (∀ polls s0, (settlements g (run_polls polls s0) <= S (settlements g s0))%nat).
Proof.
  intros Hinv Hp. split_and!.
  - intros e. by apply checkForPayment_paid.
  - intros polls. by apply run_polls_paid.
  - intros polls s0. apply settlement_at_most_once.
Qed.

Lemma checkForPayment_paid_is_noop_witness :
  (∀ e, checkForPayment e "inv-1" Fixture.settled
        = (Resolved (set_invoice_state paid Fixture.the_invoice), Fixture.settled))
  /\ (∀ polls,
        invoices (run_polls polls Fixture.settled) !! "inv-1"
        = Some (set_invoice_state paid Fixture.the_invoice)
        /\ (∀ c, payments (run_polls polls Fixture.settled) !! ("inv-1", c)
                 = payments Fixture.settled !! ("inv-1", c))
        /\ settlements "inv-1" (run_polls polls Fixture.settled)
           = settlements "inv-1" Fixture.settled)
  /\ (∀ polls s0,
        (settlements "inv-1" (run_polls polls s0) <= S (settlements "inv-1" s0))%nat).
Proof.
  apply (checkForPayment_paid_is_noop "inv-1" Fixture.settled
           (set_invoice_state paid Fixture.the_invoice)).
  - vm_compute. reflexivity.
  - reflexivity.
Defined.

(** ** Zero and under-payment *)

(** C5, as the code has it.  The confirmed amounts of the list are added up
    as doubles, in the order of the list.  When the node lists transactions
    for an unpaid invoice and this total is zero, as for the empty list, or
    not a number, the call rejects with the balance error and the invoice
    stays unpaid; when the total is neither, and the amount due (0 for a
    NULL) is not less than or equal to it, the call resolves with the
    invoice, which stays unpaid. *)
Theorem checkForPayment_underpayment e g s inv l :
  invoices s !! g = Some inv ->
  invoice_state inv = unpaid ->
  GET_TRANSACTIONS e (xch_payment_address inv) = RpcResult l ->
  let total := confirmed_sum l in
  ((total =? 0)%float = true \/ PrimFloat.is_nan total = true ->
     (checkForPayment e g s).1
     = Rejected (Error "Error retrieving balance from Chia node.")
     /\ invoices (checkForPayment e g s).2 !! g = Some inv)
  /\ ((total =? 0)%float = false -> PrimFloat.is_nan total = false ->
      (default 0 (total_amount_due inv) <=? total)%float = false ->
     (checkForPayment e g s).1 = Resolved inv
     /\ invoice_state <$> invoices (checkForPayment e g s).2 !! g = Some unpaid).
Proof.
  intros Hinv Hst Hget total. subst total.
  rewrite (checkForPayment_unpaid e g s inv l Hinv Hst Hget).
  split.
  - intros Hz%falsy_true. rewrite Hz. simpl.
    split; [done|]. by rewrite invoices_after_ingestion.
  - intros Hz Hn Hlt. pose proof (falsy_false _ Hz Hn) as Hnz.
    change (ge (confirmed_sum l) (total_amount_due inv) = false) in Hlt.
    rewrite Hnz, Hlt.
    simpl. split; [done|].
    by rewrite lookup_alter_eq, invoices_after_ingestion, Hinv; simpl; rewrite Hst.
Qed.

Lemma checkForPayment_underpayment_witness :
  (checkForPayment (Fixture.world [Fixture.coin "A" 1]) "inv-1" Fixture.fresh).1
  = Resolved Fixture.the_invoice
  /\ invoice_state <$>
       invoices
         (checkForPayment (Fixture.world [Fixture.coin "A" 1]) "inv-1"
            Fixture.fresh).2 !! "inv-1" = Some unpaid.
Proof.
  apply (checkForPayment_underpayment (Fixture.world [Fixture.coin "A" 1]) "inv-1"
           Fixture.fresh Fixture.the_invoice [Fixture.coin "A" 1]).
  - vm_compute. reflexivity.
  - reflexivity.
  - reflexivity.
  - vm_compute. reflexivity.
  - vm_compute. reflexivity.
  - vm_compute. reflexivity.
Defined.

(** C5 as the spec words it fails: the node answers with the empty list, a
    valid result, and the call does not succeed but rejects. *)
Lemma checkForPayment_rejects_empty_list :
  GET_TRANSACTIONS (Fixture.world []) "xch1pay" = RpcResult []
  /\ (checkForPayment (Fixture.world []) "inv-1" Fixture.fresh).1
     = Rejected (Error "Error retrieving balance from Chia node.")
  /\ ~ (∃ inv, (checkForPayment (Fixture.world []) "inv-1" Fixture.fresh).1
               = Resolved inv).
Proof.
  split; [reflexivity|]. split; [vm_compute; reflexivity|].
  intros [inv H]. vm_compute in H. discriminate H.
Qed.

(** The test is made on the double: of two confirmed amounts, 5000 XCH and
    one mojo less, the second is below 5000 XCH, yet their total is the
    double 10000, and an invoice of 10000 XCH is settled by them. *)
Lemma checkForPayment_settles_on_rounded_total :
  (to_xch 5000000000000000 =? 5000)%float = true
  /\ (to_xch 4999999999999999 <? 5000)%float = true
  /\ (confirmed_sum [mkTransaction "A" 5000000000000000 true 100 0;
                     mkTransaction "B" 4999999999999999 true 101 0] =? 10000)%float
     = true
  /\ invoice_state <$>
       invoices (checkForPayment Sample.one_mojo_short "inv-1"
                   Sample.ten_thousand_due).2 !! "inv-1"
     = Some paid.
Proof. split_and!; vm_compute; reflexivity. Qed.

(** ** What a poll writes into the running total *)

Lemma poll_overwrites_amount_paid e g s inv l :
  invoices s !! g = Some inv ->
  invoice_state inv = unpaid ->
  GET_TRANSACTIONS e (xch_payment_address inv) = RpcResult l ->
  (falsy (confirmed_sum l) = false ->
      amount_paid <$> invoices (checkForPayment e g s).2 !! g = Some (confirmed_sum l))
  /\ (falsy (confirmed_sum l) = true -> invoices (checkForPayment e g s).2 = invoices s).
Proof.
  intros Hinv Hst Hget.
  rewrite (checkForPayment_unpaid e g s inv l Hinv Hst Hget).
  split.
  - intros Hnz. rewrite Hnz.
    set (s2 := with_invoices _ _).
    assert (Hl2 : invoices s2 !! g = Some (set_amount_paid (confirmed_sum l) inv)).
    { subst s2. simpl. by rewrite lookup_alter_eq, invoices_after_ingestion, Hinv. }
    destruct (ge (confirmed_sum l) (total_amount_due inv)).
    + destruct (confirmPayment_effect e g s2 _ Hl2) as (Hi3 & _).
      destruct (confirmPayment e g s2) as [[?|?|] s3]; simpl in *;
        by rewrite Hi3, lookup_insert_eq.
    + change (amount_paid <$> invoices s2 !! g = Some (confirmed_sum l)).
      by rewrite Hl2.
  - intros Hz. rewrite Hz. simpl.
    apply invoices_after_ingestion.
Qed.

(** C4, as the code has it.  The amount a poll of an unpaid invoice works
    with is the total of all confirmed transactions of the list, added up
    as doubles in the order of the list, whether their rows are new or not;
    when it is neither zero nor not a number it replaces the stored
    [amount_paid], and when it is zero or not a number the invoices are left
    as they are. *)
Theorem checkForPayment_overwrites_with_total e g s inv l :
  invoices s !! g = Some inv ->
  invoice_state inv = unpaid ->
  GET_TRANSACTIONS e (xch_payment_address inv) = RpcResult l ->
  let total := confirmed_sum l in
  (insertTransactionsAndCalculateSum l g s).1 = total
  /\ ((total =? 0)%float = false -> PrimFloat.is_nan total = false ->
      amount_paid <$> invoices (checkForPayment e g s).2 !! g = Some total)
  /\ ((total =? 0)%float = true \/ PrimFloat.is_nan total = true ->
      invoices (checkForPayment e g s).2 = invoices s).
Proof.
  intros Hinv Hst Hget total. split; [apply insert_loop_sum|].
  destruct (poll_overwrites_amount_paid e g s inv l Hinv Hst Hget) as [Hnz Hz].
  split.
  - intros H0 Hn. by apply Hnz, falsy_false.
  - intros H. by apply Hz, falsy_true.
Qed.

Lemma checkForPayment_overwrites_with_total_witness :
  amount_paid <$>
    invoices
      (checkForPayment (Fixture.world [Fixture.coin "A" 1; Fixture.coin "B" 2])
         "inv-1" Fixture.fresh).2 !! "inv-1"
  = Some (confirmed_sum [Fixture.coin "A" 1; Fixture.coin "B" 2]).
Proof.
  apply (checkForPayment_overwrites_with_total
           (Fixture.world [Fixture.coin "A" 1; Fixture.coin "B" 2]) "inv-1"
           Fixture.fresh Fixture.the_invoice
           [Fixture.coin "A" 1; Fixture.coin "B" 2]).
  - vm_compute. reflexivity.
  - reflexivity.
  - reflexivity.
  - vm_compute. reflexivity.
  - vm_compute. reflexivity.
Defined.

(** C4 as the spec words it fails.  After a poll that recorded coins A and Z
    (2 XCH paid), the node lists A and B: the call works with 3 XCH, the whole
    list, where only B, 2 XCH, is newly ingested, and the stored total becomes
    3, neither 2 + 2 nor 2 + 3. *)
Lemma checkForPayment_does_not_increment :
  let l := [Fixture.coin "A" 1; Fixture.coin "B" 2] in
  let s := Fixture.after_first_poll in
  let s' := (checkForPayment (Fixture.world l) "inv-1" s).2 in
  amount_paid_of "inv-1" s = Some 2%float
  /\ (insertTransactionsAndCalculateSum l "inv-1" s).1 = 3%float
  /\ newly_ingested_sum l "inv-1" (payments s) 0 = 2%float
  /\ amount_paid_of "inv-1" s' = Some 3%float
  /\ ~ increments_by_newly_ingested (Fixture.world l) "inv-1" s.
Proof.
  split_and!; try (vm_compute; reflexivity).
  intros H.
  specialize (H (set_amount_paid (confirmed_sum [Fixture.coin "A" 1; Fixture.coin "Z" 1])
                   Fixture.the_invoice)
                [Fixture.coin "A" 1; Fixture.coin "B" 2]
                (set_amount_paid (confirmed_sum [Fixture.coin "A" 1; Fixture.coin "B" 2])
                   Fixture.the_invoice)).
  assert (H' := H ltac:(vm_compute; reflexivity) ltac:(reflexivity)
                  ltac:(vm_compute; reflexivity)).
  vm_compute in H'. discriminate H'.
Qed.

(** ** Idempotent ingestion *)

Lemma payments_after_unpaid_poll e g s inv l :
  invoices s !! g = Some inv ->
  invoice_state inv = unpaid ->
  GET_TRANSACTIONS e (xch_payment_address inv) = RpcResult l ->
  payments (checkForPayment e g s).2 = payments (insert_loop l g 0%float s).2.
Proof.
  intros Hinv Hst Hget.
  rewrite (checkForPayment_unpaid e g s inv l Hinv Hst Hget).
  destruct (falsy (confirmed_sum l)); [done|].
  set (s2 := with_invoices _ _).
  destruct (ge (confirmed_sum l) (total_amount_due inv)); [|done].
  assert (Hl2 : invoices s2 !! g = Some (set_amount_paid (confirmed_sum l) inv)).
  { subst s2. simpl. by rewrite lookup_alter_eq, invoices_after_ingestion, Hinv. }
  destruct (confirmPayment_effect e g s2 _ Hl2) as (_ & Hp3 & _).
  destruct (confirmPayment e g s2) as [[?|?|] s3]; simpl in *; by rewrite Hp3.
Qed.

Lemma payments_after_poll e g s :
  ∃ l, payments (checkForPayment e g s).2
       = payments s ∪ list_to_map (payment_rows g l).
Proof.
  destruct (invoices s !! g) as [inv|] eqn:Hinv.
  2:{ exists []. unfold checkForPayment. rewrite Hinv. simpl.
      by rewrite (right_id_L ∅ (∪)). }
  destruct (invoice_state inv) eqn:Hst.
  2:{ exists []. rewrite (checkForPayment_paid e g s inv) by done. simpl.
      by rewrite (right_id_L ∅ (∪)). }
  destruct (GET_TRANSACTIONS e (xch_payment_address inv)) as [err| |l] eqn:Hget.
  3:{ exists l. rewrite (payments_after_unpaid_poll e g s inv l) by done.
      apply insert_loop_payments. }
  all: exists []; unfold checkForPayment;
    rewrite Hinv, decide_False by (rewrite Hst; done);
    rewrite Hget; simpl; by rewrite (right_id_L ∅ (∪)).
Qed.

Lemma payments_keyed_poll e g s :
  payments_keyed s -> payments_keyed (checkForPayment e g s).2.
Proof.
  intros Hk k row. destruct (payments_after_poll e g s) as [l ->].
  intros [Hold|[_ Hnew]]%lookup_union_Some_raw; [by apply Hk|].
  apply elem_of_list_to_map_2 in Hnew. unfold payment_rows in Hnew.
  apply list_elem_of_fmap in Hnew. destruct Hnew as (t & Heq & _).
  by inversion Heq.
Qed.

Lemma rows_for_single g c s row :
  payments_keyed s -> payments s !! (g, c) = Some row ->
  rows_for g c s = [((g, c), row)].
Proof.
  intros Hk Hrow. unfold rows_for.
  rewrite <- map_to_list_singleton. f_equal.
  apply map_eq. intros k. apply option_eq. intros x.
  rewrite map_lookup_filter_Some, lookup_singleton_Some. simpl. split.
  - intros [Hx [Hg Hc]]. pose proof (Hk _ _ Hx) as ->. rewrite Hg, Hc in *.
    split; [done|]. congruence.
  - intros [<- <-]. split; [done|]. pose proof (Hk _ _ Hrow) as Hkey.
    by inversion Hkey.
Qed.

(** C2.  A confirmed transaction listed for an unpaid invoice leaves exactly
    one payment row under (invoice guid, transaction name) after the poll, and
    after one more poll of that invoice, whatever the node lists then and in
    particular the same transaction again, the table still holds that one row,
    unchanged. *)
Theorem same_transaction_recorded_once e1 e2 g s inv l t :
  payments_keyed s ->
  invoices s !! g = Some inv ->
  invoice_state inv = unpaid ->
  GET_TRANSACTIONS e1 (xch_payment_address inv) = RpcResult l ->
  t ∈ l ->
  confirmed t = true ->
  let s1 := (checkForPayment e1 g s).2 in
  let s2 := (checkForPayment e2 g s1).2 in
  ∃ row, rows_for g (name t) s1 = [((g, name t), row)]
         /\ rows_for g (name t) s2 = [((g, name t), row)].
Proof.
  intros Hk Hinv Hst Hget Hin Hc s1 s2.
  assert (Hrow : is_Some (payments s1 !! (g, name t))).
  { subst s1. rewrite (payments_after_unpaid_poll e1 g s inv l) by done.
    by apply insert_loop_records. }
  destruct Hrow as [row Hrow]. exists row.
  assert (Hk1 : payments_keyed s1) by (by apply payments_keyed_poll).
  assert (Hk2 : payments_keyed s2) by (by apply payments_keyed_poll).
  split; [by apply rows_for_single|].
  apply rows_for_single; [done|].
  destruct (checkForPayment_footprint e2 g s1) as (_ & _ & _ & Hkeep & _).
  by apply Hkeep.
Qed.

Lemma same_transaction_recorded_once_witness :
  let w := Fixture.world [Fixture.coin "A" 1] in
  let s1 := (checkForPayment w "inv-1" Fixture.fresh).2 in
  let s2 := (checkForPayment w "inv-1" s1).2 in
  ∃ row, rows_for "inv-1" "A" s1 = [(("inv-1", "A"), row)]
         /\ rows_for "inv-1" "A" s2 = [(("inv-1", "A"), row)].
Proof.
  apply (same_transaction_recorded_once
           (Fixture.world [Fixture.coin "A" 1]) (Fixture.world [Fixture.coin "A" 1])
           "inv-1" Fixture.fresh Fixture.the_invoice [Fixture.coin "A" 1]
           (Fixture.coin "A" 1)).
  - intros k row H. vm_compute in H. discriminate H.
  - vm_compute. reflexivity.
  - reflexivity.
  - reflexivity.
  - apply list_elem_of_here.
  - reflexivity.
Defined.

(** ** Notification failures *)

Lemma grace_emails_keeps e rows s ev :
  ev ∈ trace s -> ev ∈ trace (grace_emails e rows s).
Proof.
  revert s. induction rows as [|[r address] rows IH]; intros s Hin; simpl; [done|].
  apply IH. destruct (sendEmail e address); simpl; apply elem_of_app; by left.
Qed.

Lemma grace_emails_logs e rows s row err :
  row ∈ rows -> sendEmail e row.2 = Some err ->
  ConsoleError "Error sending grace period email:" (Some err)
  ∈ trace (grace_emails e rows s).
Proof.
  revert s. induction rows as [|[r address] rows IH]; intros s Hin Hfail.
  - by apply elem_of_nil in Hin.
  - apply elem_of_cons in Hin. destruct Hin as [->|Hin]; simpl.
    + simpl in Hfail. rewrite Hfail. apply grace_emails_keeps. simpl.
      apply elem_of_app. right. apply list_elem_of_here.
    + by apply IH.
Qed.

(** C6, as the code has it.  In [createInvoice], once the invoice row is
    inserted, a failure of the mailer is logged and rejects the promise with
    the mailer's error, the row staying in the table.  The batch scan
    [setSubscriptionsToGracePeriod] is where such a failure is logged and
    goes no further: it resolves whatever the mailer does. *)
Theorem notification_failure_after_insert e userId subscriptionId p s address u err :
  GET_NEW_PAYMENT_ADDRESS e = RpcResult address ->
  address ≠ "" ->
  invoices s !! uuidv4 e = None ->
  users s !! userId = Some u ->
  sendEmail e (email u) = Some err ->
  let r := createInvoice e userId subscriptionId (Some p) s in
  let row :=
    mkInvoice (uuidv4 e) subscriptionId (now e)
              (setFullYear (now e) (getFullYear (now e) + 1)) (cost p) 0%float
              address unpaid in
  (r.1 = Rejected err
   /\ invoices r.2 = <[uuidv4 e := row]> (invoices s)
   /\ trace r.2
      = (trace s
         ++ [ConsoleError "Error creating invoice or fetching invoice:" (Some err)])%list)
  /\ ∀ e' s',
      (∃ n, (setSubscriptionsToGracePeriod e' s').1 = Resolved n)
      /\ ∀ rw err',
          rw ∈ select_with_email (expired_on (setHours0 (now e'))) s' ->
          sendEmail e' rw.2 = Some err' ->
          ConsoleError "Error sending grace period email:" (Some err')
          ∈ trace (setSubscriptionsToGracePeriod e' s').2.
Proof.
  intros Hget Haddr Hfree Huser Hmail. split.
  - unfold createInvoice. rewrite Hget. simpl.
    destruct address as [|a rest]; [done|].
    unfold insert_invoice. simpl. rewrite Hfree. simpl. rewrite Huser, Hmail.
    done.
  - intros e' s'. unfold setSubscriptionsToGracePeriod.
    destruct (select_with_email _ s') as [|row0 rows] eqn:Hrows.
    + split; [by eexists|]. intros rw err' Hin. by apply elem_of_nil in Hin.
    + split; [by eexists|]. intros rw err' Hin Hfail.
      by apply (grace_emails_logs e' (row0 :: rows) _ rw err').
Qed.

Lemma notification_failure_after_insert_witness :
  let r :=
    createInvoice Fixture.world_without_mail 1 (Some 7) (Some Fixture.the_product)
                  Fixture.fresh in
  r.1 = Rejected Fixture.smtp_down
  /\ invoices r.2
     = <["inv-2" := mkInvoice "inv-2" (Some 7) Fixture.jan_1_2024 (mkDate 2025 0 1 0)
                              (Some 5%float) 0 "xch1new" unpaid]>
         (invoices Fixture.fresh)
  /\ trace r.2
     = (trace Fixture.fresh
        ++ [ConsoleError "Error creating invoice or fetching invoice:"
              (Some Fixture.smtp_down)])%list.
Proof.
  apply (notification_failure_after_insert Fixture.world_without_mail 1 (Some 7)
           Fixture.the_product Fixture.fresh "xch1new" (mkUser "ann@example.org")
           Fixture.smtp_down).
  - reflexivity.
  - discriminate.
  - vm_compute. reflexivity.
  - vm_compute. reflexivity.
  - reflexivity.
Defined.

(** C6 as the spec words it fails: the invoice row is inserted, the mailer
    fails, and the caller gets the mailer's error. *)
Lemma createInvoice_propagates_mail_failure :
  let r :=
    createInvoice Fixture.world_without_mail 1 (Some 7) (Some Fixture.the_product)
                  Fixture.fresh in
  invoices Fixture.fresh !! "inv-2" = None
  /\ is_Some (invoices r.2 !! "inv-2")
  /\ r.1 = Rejected Fixture.smtp_down.
Proof.
  split_and!.
  - vm_compute. reflexivity.
  - eexists. vm_compute. reflexivity.
  - vm_compute. reflexivity.
Qed.

(** ** No payment address *)

Lemma createInvoice_no_address e userId subscriptionId p s :
  GET_NEW_PAYMENT_ADDRESS e = RpcNoResult \/ GET_NEW_PAYMENT_ADDRESS e = RpcResult "" ->
  createInvoice e userId subscriptionId (Some p) s
  = (Pending,
     log (UnhandledRejection
            (Error "Error retrieving payment address from Chia node.")) s).
Proof. intros [H|H]; unfold createInvoice; by rewrite H. Qed.

(** C7, on the code.  The node hands out no address: no invoice row is
    created, but the promise of [createInvoice] is left pending, the error
    being thrown inside the async executor and outside its [try]; the
    caller is not given the error. *)
Theorem createInvoice_without_address_never_settles :
  let r :=
    createInvoice Fixture.world_without_address 1 (Some 7) (Some Fixture.the_product)
                  Fixture.fresh in
  r.1 = Pending
  /\ (∀ err, r.1 ≠ Rejected err)
  /\ invoices r.2 = invoices Fixture.fresh
  /\ trace r.2
     = [UnhandledRejection (Error "Error retrieving payment address from Chia node.")].
Proof.
  rewrite (createInvoice_no_address Fixture.world_without_address 1 (Some 7)
             Fixture.the_product Fixture.fresh) by (by left).
  by split_and!.
Qed.

(** ** Renewal *)

Lemma days_in_month_year y y' m :
  m ≠ 1 -> days_in_month y m = days_in_month y' m.
Proof.
  intros Hm. unfold days_in_month.
  destruct m as [|q|q]; try reflexivity.
  repeat (destruct q as [q|q|]; try reflexivity). congruence.
Qed.

Lemma days_in_february y : 28 <= days_in_month y 1 <= 29.
Proof. unfold days_in_month. destruct (is_leap y); lia. Qed.

Lemma leap_day_has_leap_year y : 29 <= days_in_month y 1 -> is_leap (y + 1) = false.
Proof.
  unfold days_in_month. destruct (is_leap y) eqn:Hl; [|lia]. intros _.
  unfold is_leap in *. apply andb_true_iff in Hl. destruct Hl as [H4 _].
  apply Z.eqb_eq in H4. apply andb_false_iff. left. apply Z.eqb_neq.
  intros H. assert (Hy : (y + 1) mod 4 = (y mod 4 + 1) mod 4).
  { rewrite Zplus_mod. rewrite (Z.mod_small 1 4) by lia. reflexivity. }
  rewrite H4 in Hy. rewrite H in Hy. discriminate Hy.
Qed.

(** The same day of the following year, except from a leap day. *)
Lemma setFullYear_next_year d :
  valid d -> ~ (month d = 1 /\ day d = 29) ->
  setFullYear d (getFullYear d + 1) = mkDate (year d + 1) (month d) (day d) (msec d).
Proof.
  intros (Hm & Hd & Ht) Hleap. unfold setFullYear, getFullYear, MakeDate.
  assert (Hle : day d <= days_in_month (year d + 1) (month d)).
  { destruct (decide (month d = 1)) as [H1|H1].
    - rewrite H1 in *. pose proof (days_in_february (year d)).
      pose proof (days_in_february (year d + 1)). lia.
    - rewrite (days_in_month_year _ (year d) _ H1). lia. }
  apply Z.leb_le in Hle. by rewrite Hle.
Qed.

(** From a leap day, [setFullYear] rolls over to the first of March. *)
Lemma setFullYear_leap_day d :
  valid d -> month d = 1 -> day d = 29 ->
  setFullYear d (getFullYear d + 1) = mkDate (year d + 1) 2 1 (msec d).
Proof.
  intros (Hm & Hd & Ht) H1 H29. unfold setFullYear, getFullYear, MakeDate.
  rewrite H1, H29 in *.
  assert (Hl : is_leap (year d + 1) = false) by (apply leap_day_has_leap_year; lia).
  unfold days_in_month. rewrite Hl. reflexivity.
Qed.

(** C8.  For a subscription that is not terminated, [renewSubscription]
    stores a record and resolves with it: the row it read, with the end date
    that [setFullYear] makes of the stored end date for the year after its
    own, and the other columns as they were; nothing is read from the clock.
    The new end date is the same day and time of the following year,
    2024-01-01 giving 2025-01-01; from a leap day, which has no such day, it
    is the first of March. *)
Theorem renewSubscription_extends_end_date subscriptionId s r :
  subscriptions s !! subscriptionId = Some r ->
  status r ≠ terminated ->
  let newEndDate := setFullYear (end_date r) (getFullYear (end_date r) + 1) in
  let renewed :=
    mkSubscription (id r) (user_id r) (product_key r) (start_date r) newEndDate
                   (status r) (data r) in
  (renewSubscription subscriptionId s).1 = Resolved renewed
  /\ subscriptions (renewSubscription subscriptionId s).2 !! subscriptionId
     = Some renewed
  /\ end_date <$> subscriptions (renewSubscription subscriptionId s).2 !! subscriptionId
     = Some newEndDate
  /\ (valid (end_date r) ->
      if decide (month (end_date r) = 1 /\ day (end_date r) = 29)
      then newEndDate = mkDate (year (end_date r) + 1) 2 1 (msec (end_date r))
      else newEndDate = mkDate (year (end_date r) + 1) (month (end_date r))
                               (day (end_date r)) (msec (end_date r))).
Proof.
  intros Hr Hst newEndDate renewed. unfold renewSubscription.
  rewrite Hr, decide_False by done. simpl.
  split_and!; [done| | |].
  - by rewrite lookup_alter_eq, Hr.
  - by rewrite lookup_alter_eq, Hr.
  - intros Hv. destruct (decide _) as [[H1 H29]|Hn].
    + by apply setFullYear_leap_day.
    + by apply setFullYear_next_year.
Qed.

Lemma renewSubscription_extends_end_date_witness :
  status Fixture.the_subscription = grace_period
  /\ end_date Fixture.the_subscription = mkDate 2024 0 1 0
  /\ (renewSubscription 7 Fixture.fresh).1
     = Resolved (mkSubscription 7 1 "basic" (mkDate 2023 0 1 0) (mkDate 2025 0 1 0)
                   grace_period
                   (mkSubscriptionData (Some "CREATE_MIRROR") {["userId" := JNumber 1]}))
  /\ end_date <$> subscriptions (renewSubscription 7 Fixture.fresh).2 !! 7
     = Some (mkDate 2025 0 1 0).
Proof.
  split; [reflexivity|]. split; [reflexivity|].
  pose proof (renewSubscription_extends_end_date 7 Fixture.fresh
                Fixture.the_subscription
                ltac:(vm_compute; reflexivity) ltac:(discriminate))
    as (H1 & _ & H3 & _).
  split; [exact H1 | exact H3].
Defined.



(** ** The expiration scan *)

Lemma createInvoice_without_product e userId subscriptionId s :
  createInvoice e userId subscriptionId None s
  = (Pending,
     log (UnhandledRejection
            (TypeError "Cannot read properties of undefined (reading 'cost')")) s).
Proof. reflexivity. Qed.

(** Whatever the store, the scan inserts no invoice and sends no email. *)
Lemma expiration_callbacks_create_nothing e row_env rows s :
  let r := expiration_callbacks e row_env rows s in
  invoices r.2 = invoices s
  /\ (∀ to subject body, EmailSent to subject body ∈ trace r.2 ->
                         EmailSent to subject body ∈ trace s)
  /\ (r.1 = true <-> rows = []).
Proof.
  revert s. induction rows as [|[r address] rows IH]; intros s; simpl; [done|].
  set (s1 := log _ s).
  destruct (IH s1) as (Hi & Hm & _).
  destruct (expiration_callbacks e row_env rows s1) as [b s2]. simpl in *.
  split_and!; [done| |done].
  intros to subject body Hin. apply Hm in Hin. subst s1. simpl in Hin.
  apply elem_of_app in Hin. destruct Hin as [Hin|Hin]; [done|].
  apply list_elem_of_singleton in Hin. discriminate Hin.
Qed.

Lemma elem_of_select_with_email (P : subscription -> bool) s (row : subscription * string) :
  row ∈ select_with_email P s
  <-> ∃ k u, subscriptions s !! k = Some row.1 /\ P row.1 = true
             /\ users s !! user_id row.1 = Some u /\ row.2 = email u.
Proof.
  unfold select_with_email. rewrite list_elem_of_omap. split.
  - intros ([k r] & Hin & Hf). apply elem_of_map_to_list in Hin. simpl in Hf.
    destruct (P r) eqn:HP; [|done].
    destruct (users s !! user_id r) as [u|] eqn:Hu; [|done].
    simpl in Hf. injection Hf as <-. simpl. by exists k, u.
  - intros (k & u & Hk & HP & Hu & He). exists (k, row.1). split.
    + by apply elem_of_map_to_list.
    + simpl. rewrite HP, Hu. simpl. destruct row as [r a]. simpl in *. by rewrite He.
Qed.

Lemma expiring_spec currentDate expirationDate r :
  expiring currentDate expirationDate r = true
  <-> status r = active
      /\ JsDate.key currentDate <= JsDate.key (end_date r) <= JsDate.key expirationDate.
Proof.
  unfold expiring, between, JsDate.leb.
  rewrite !andb_true_iff, bool_decide_eq_true, !Z.leb_le. done.
Qed.

(** X23.  Whatever the store and whatever the collaborators answer,
    [checkSubscriptionsForExpiration] inserts no invoice and sends no email;
    it never rejects: it resolves when it selects no subscription, and is
    left pending, neither resolved nor rejected, as soon as it selects one,
    that is as soon as there is an active subscription with a user whose end
    date lies between now and [setDate(getDate() + 15)] of now. *)
Theorem checkSubscriptionsForExpiration_creates_nothing e row_env s :
  let r := checkSubscriptionsForExpiration e row_env s in
  let rows :=
    select_with_email
      (expiring (now e) (setDate (now e) (getDate (now e) + 15))) s in
  invoices r.2 = invoices s
  /\ (∀ to subject body, EmailSent to subject body ∈ trace r.2 ->
                         EmailSent to subject body ∈ trace s)
  /\ (rows = [] -> r.1 = Resolved tt)
  /\ (rows ≠ [] -> r.1 = Pending)
  /\ (∀ err, r.1 ≠ Rejected err)
  /\ (rows ≠ []
      <-> ∃ k sub, subscriptions s !! k = Some sub
                   /\ status sub = active
                   /\ JsDate.key (now e) <= JsDate.key (end_date sub)
                      <= JsDate.key (setDate (now e) (getDate (now e) + 15))
                   /\ is_Some (users s !! user_id sub)).
Proof.
  unfold checkSubscriptionsForExpiration.
  destruct (expiration_callbacks_create_nothing e row_env
              (select_with_email
                 (expiring (now e) (setDate (now e) (getDate (now e) + 15))) s) s)
    as (Hi & Hm & Hr).
  assert (Hsel :
    select_with_email (expiring (now e) (setDate (now e) (getDate (now e) + 15))) s
    ≠ []
    <-> ∃ k sub, subscriptions s !! k = Some sub
                 /\ status sub = active
                 /\ JsDate.key (now e) <= JsDate.key (end_date sub)
                    <= JsDate.key (setDate (now e) (getDate (now e) + 15))
                 /\ is_Some (users s !! user_id sub)).
  { split.
    - intros Hne.
      destruct (select_with_email _ s) as [|row rows'] eqn:Hrows; [done|].
      assert (Hin : row ∈ select_with_email
                (expiring (now e) (setDate (now e) (getDate (now e) + 15))) s)
        by (rewrite Hrows; apply list_elem_of_here).
      apply elem_of_select_with_email in Hin.
      destruct Hin as (k & u & Hk & HP & Hu & _).
      apply expiring_spec in HP. destruct HP as [Hact Hbetween].
      exists k, (row.1). do 3 (split; [done|]). by exists u.
    - intros (k & sub & Hk & Hact & Hbetween & [u Hu]) Hnil.
      assert (Hin : (sub, email u) ∈ select_with_email
                (expiring (now e) (setDate (now e) (getDate (now e) + 15))) s).
      { apply elem_of_select_with_email. exists k, u. simpl.
        split; [done|]. split; [by apply expiring_spec|]. by split. }
      rewrite Hnil in Hin. by apply elem_of_nil in Hin. }
  destruct (expiration_callbacks e row_env _ s) as [[|] s1]; simpl in *.
  - split_and!; [done..| |done|done]. intros Hne. destruct Hne. by apply Hr.
  - split_and!; [done| | |done|done|done]; [done|]. intros H. apply Hr in H. done.
Qed.

(** C9, on the code.  With one active subscription that ends in nine days,
    the scan does select it, but creates no invoice and sends no email:
    [createInvoice] is called with the subscription id alone, [product.cost]
    throws in its executor, and the scan itself is left pending. *)
Theorem checkSubscriptionsForExpiration_creates_no_invoice :
  let e := Fixture.world [] in
  let s := Fixture.expiring_soon in
  let r := checkSubscriptionsForExpiration e (λ _, e) s in
  select_with_email
    (expiring (now e) (setDate (now e) (getDate (now e) + 15))) s
  = [(set_status active
        (set_end_date (mkDate 2024 0 10 0) Fixture.the_subscription),
      "ann@example.org")]
  /\ r.1 = Pending
  /\ invoices r.2 = invoices s
  /\ trace r.2
     = [UnhandledRejection
          (TypeError "Cannot read properties of undefined (reading 'cost')")].
Proof. split_and!; vm_compute; reflexivity. Qed.

(** ** The ledger invariant *)

(** The total the loop returns is the sum of the amounts of the confirmed
    transactions of the list, added in the order of the list. *)
Lemma confirmed_sum_double_sum l :
  confirmed_sum l
  = double_sum ((λ t, to_xch (tx_amount t)) <$> filter (λ t, confirmed t = true) l).
Proof.
  unfold confirmed_sum, double_sum. generalize 0%float.
  induction l as [|tx rest IH]; intros acc; [done|].
  cbn [fold_left]. rewrite filter_cons. destruct (confirmed tx) eqn:Hc.
  - rewrite decide_True by done. rewrite fmap_cons. cbn [fold_left]. apply IH.
  - rewrite decide_False by done. apply IH.
Qed.

Lemma amounts_of_ext (g : string) (m m' : gmap (string * string) payment) :
  (∀ k, k.1 = g -> m' !! k = m !! k) -> amounts_of g m' = amounts_of g m.
Proof.
  intros H. apply map_eq. intros k. unfold amounts_of. rewrite !lookup_fmap.
  f_equal. apply option_eq. intros x. rewrite !map_lookup_filter_Some. simpl.
  split; intros [Hx Hk]; (split; [|done]).
  - by rewrite <- H.
  - by rewrite H.
Qed.

Lemma payment_rows_keys g l :
  (payment_rows g l).*1 = pair g <$> (name <$> filter (λ t, confirmed t = true) l).
Proof.
  unfold payment_rows. rewrite <- !list_fmap_compose. done.
Qed.

Lemma payment_rows_NoDup g l :
  NoDup (name <$> filter (λ t, confirmed t = true) l) ->
  NoDup (payment_rows g l).*1.
Proof.
  intros H. rewrite payment_rows_keys. apply NoDup_fmap_2; [|done].
  intros x y [=]. done.
Qed.

Section Ledger.

(** One poll of invoice [g]: the node lists [l], the table holds [m]. *)
Variable g : string.
Variable l : list transaction.
Variable m : gmap (string * string) payment.

Hypothesis names_distinct : NoDup (name <$> filter (λ t, confirmed t = true) l).
Hypothesis recorded_are_listed : lists_recorded g l m.

(** The rows of the invoice are, after the loop, those of the confirmed
    transactions of the list. *)
Lemma amounts_after_ingestion :
  amounts_of g (m ∪ list_to_map (payment_rows g l))
  = amount <$> (list_to_map (payment_rows g l) : gmap (string * string) payment).
Proof.
  apply map_eq. intros k. unfold amounts_of.
  rewrite !lookup_fmap.
  destruct (decide (k.1 = g)) as [Hk|Hk].
  - destruct k as [g' c]. simpl in Hk. subst g'.
    assert (Hf : filter (λ kv : (string * string) * payment, kv.1.1 = g)
                   (m ∪ list_to_map (payment_rows g l)) !! (g, c)
                 = (m ∪ list_to_map (payment_rows g l)) !! (g, c)).
    { apply option_eq. intros x. rewrite map_lookup_filter_Some. simpl.
      split; [by intros [? _]|done]. }
    rewrite Hf, lookup_union.
    destruct (m !! (g, c)) as [row|] eqn:Hm.
    + destruct (recorded_are_listed c row Hm) as (t & Hin & Hc & Hn & Ha).
      assert (Hl : (list_to_map (payment_rows g l) : gmap _ payment) !! (g, c)
                   = Some (payment_of g t)).
      { apply elem_of_list_to_map_1; [by apply payment_rows_NoDup|].
        unfold payment_rows. apply list_elem_of_fmap. exists t.
        split; [by rewrite Hn|]. by apply list_elem_of_filter. }
      rewrite Hl. simpl. by rewrite Ha.
    + by destruct (list_to_map (payment_rows g l) !! (g, c)).
  - assert (Hf : filter (λ kv : (string * string) * payment, kv.1.1 = g)
                   (m ∪ list_to_map (payment_rows g l)) !! k = None).
    { apply map_lookup_filter_None. right. intros x _. done. }
    rewrite Hf.
    destruct (list_to_map (payment_rows g l) !! k) as [row|] eqn:Hl; [|done].
    apply payment_rows_lookup_key in Hl. done.
Qed.

(** Their amounts are those of the confirmed transactions of the list. *)
Lemma payment_amounts_after_ingestion :
  payment_amounts g (m ∪ list_to_map (payment_rows g l))
  ≡ₚ (λ t, to_xch (tx_amount t)) <$> filter (λ t, confirmed t = true) l.
Proof.
  unfold payment_amounts. rewrite amounts_after_ingestion.
  rewrite <- list_to_map_fmap.
  rewrite map_to_list_to_map.
  2:{ rewrite <- list_fmap_compose.
      rewrite (list_fmap_ext _ fst (payment_rows g l)) by (by intros ? []).
      by apply payment_rows_NoDup. }
  unfold payment_rows. rewrite <- !list_fmap_compose. done.
Qed.

End Ledger.

Lemma ledger_consistent_poll e h s :
  ledger_consistent s -> cumulative_feed e h s ->
  ledger_consistent (checkForPayment e h s).2.
Proof.
  intros Hc Hfeed g inv' Hg'.
  destruct (checkForPayment_footprint e h s) as (_ & Hi & Hpay & _ & _ & _ & Hnone).
  destruct (decide (g = h)) as [->|Hne].
  2:{ rewrite Hi in Hg' by done. destruct (Hc g inv' Hg') as (amounts & Hperm & Hsum).
      exists amounts. split; [|done]. rewrite Hperm. unfold payment_amounts.
      rewrite (amounts_of_ext g (payments s) (payments (checkForPayment e h s).2));
        [reflexivity|].
      intros k Hk. apply Hpay. congruence. }
  destruct (invoices s !! h) as [inv|] eqn:Hinv.
  2:{ rewrite Hnone in Hg' by done. done. }
  destruct (invoice_state inv) eqn:Hst.
  2:{ rewrite (checkForPayment_paid e h s inv) in Hg' |- * by done.
      simpl in *. by apply Hc. }
  destruct (GET_TRANSACTIONS e (xch_payment_address inv)) as [err| |l] eqn:Hget.
  1,2: (unfold checkForPayment in Hg' |- *; rewrite Hinv in Hg' |- *;
        rewrite decide_False in Hg' |- * by (rewrite Hst; done);
        rewrite Hget in Hg' |- *; simpl in *; by apply Hc).
  destruct (Hfeed inv l Hinv Hst Hget) as (Hnd & Hpos & Hcov).
  rewrite (payments_after_unpaid_poll e h s inv l) by done.
  rewrite insert_loop_payments.
  destruct (poll_overwrites_amount_paid e h s inv l Hinv Hst Hget) as [Hnz Hz].
  destruct (falsy (confirmed_sum l)) eqn:Hzero.
  - rewrite (Hz eq_refl), Hinv in Hg'. injection Hg' as <-.
    destruct (filter (λ t, confirmed t = true) l) as [|t rest] eqn:Hnone'.
    + unfold payment_rows. rewrite Hnone'. simpl.
      rewrite (right_id_L ∅ (∪)). by apply Hc.
    + destruct Hpos as [H0 Hn]; [done|].
      by rewrite (falsy_false _ H0 Hn) in Hzero.
  - specialize (Hnz eq_refl). rewrite Hg' in Hnz. simpl in Hnz.
    injection Hnz as ->.
    exists ((λ t, to_xch (tx_amount t)) <$> filter (λ t, confirmed t = true) l).
    split; [|apply confirmed_sum_double_sum].
    symmetry. by apply payment_amounts_after_ingestion.
Qed.

(** C1, as the code has it.  Over any sequence of polls in which the node's
    answers keep up with the ledger, every invoice has paid what the amounts
    of its payment rows add up to as doubles, provided it was so before:
    [amount_paid] is the double that adding the amounts of the rows one
    after the other, in one order of the rows, gives. *)
Theorem ledger_consistent_under_cumulative_feed polls s :
  ledger_consistent s ->
  cumulative_run polls s ->
  ledger_consistent (run_polls polls s).
Proof.
  revert s. induction polls as [|[e h] polls IH]; intros s Hc Hrun; simpl; [done|].
  destruct Hrun as [Hfeed Hrest]. apply IH; [|done].
  by apply ledger_consistent_poll.
Qed.

Lemma fresh_ledger_consistent : ledger_consistent Fixture.fresh.
Proof.
  intros g inv H. simpl in H. apply lookup_singleton_Some in H.
  destruct H as [<- <-]. exists []. split; [|reflexivity].
  vm_compute. constructor.
Qed.

Lemma fresh_cumulative_run :
  cumulative_run
    [(Fixture.world [Fixture.coin "A" 1], "inv-1");
     (Fixture.world [Fixture.coin "A" 1; Fixture.coin "B" 2], "inv-1")]
    Fixture.fresh.
Proof.
  split; [|split; [|exact I]].
  - intros inv l _ _ [= <-]. split_and!.
    + apply (bool_decide_unpack _). vm_compute. reflexivity.
    + intros _. split; vm_compute; reflexivity.
    + intros c row H. simpl in H. by rewrite lookup_empty in H.
  - intros inv l _ _ [= <-]. split_and!.
    + apply (bool_decide_unpack _). vm_compute. reflexivity.
    + intros _. split; vm_compute; reflexivity.
    + intros c row H.
      assert (Hp : payments
                (checkForPayment (Fixture.world [Fixture.coin "A" 1]) "inv-1"
                   Fixture.fresh).2
              = {[("inv-1", "A") := payment_of "inv-1" (Fixture.coin "A" 1)]})
        by (vm_compute; reflexivity).
      rewrite Hp in H. apply lookup_singleton_Some in H. destruct H as [[= <-] <-].
      exists (Fixture.coin "A" 1). split_and!; try reflexivity.
      apply list_elem_of_here.
Qed.

Lemma ledger_consistent_under_cumulative_feed_witness :
  ledger_consistent
    (run_polls
       [(Fixture.world [Fixture.coin "A" 1], "inv-1");
        (Fixture.world [Fixture.coin "A" 1; Fixture.coin "B" 2], "inv-1")]
       Fixture.fresh).
Proof.
  apply (ledger_consistent_under_cumulative_feed
           [(Fixture.world [Fixture.coin "A" 1], "inv-1");
            (Fixture.world [Fixture.coin "A" 1; Fixture.coin "B" 2], "inv-1")]
           Fixture.fresh).
  - exact fresh_ledger_consistent.
  - exact fresh_cumulative_run.
Defined.

(** The order matters for a sum of doubles: 0.1, 0.2 and 0.3 give another
    double when they are added last to first. *)
Lemma double_sum_depends_on_order :
  let l := [(1 / 10)%float; (2 / 10)%float; (3 / 10)%float] in
  (double_sum l =? double_sum (reverse l))%float = false.
Proof. vm_compute. reflexivity. Qed.

(** C1 as the spec words it fails.  A first poll lists coin A, 1 XCH; a
    second lists coin B, 2 XCH, without A.  The payment rows of the invoice
    then add up to 3 XCH, in whatever order, while its [amount_paid] is 2. *)
Lemma ledger_inconsistent_after_disjoint_polls :
  let s :=
    run_polls [(Fixture.world [Fixture.coin "A" 1], "inv-1");
               (Fixture.world [Fixture.coin "B" 2], "inv-1")] Fixture.fresh in
  ledger_consistent Fixture.fresh
  /\ amount_paid_of "inv-1" s = Some 2%float
  /\ double_sum (payment_amounts "inv-1" (payments s)) = 3%float
  /\ ~ ledger_consistent s.
Proof.
  split_and!; [exact fresh_ledger_consistent|vm_compute; reflexivity..|].
  intros H.
  destruct (H "inv-1"
              (set_amount_paid (confirmed_sum [Fixture.coin "B" 2])
                 Fixture.the_invoice)
              ltac:(vm_compute; reflexivity)) as (amounts & Hperm & Hsum).
  assert (Hrows : payment_amounts "inv-1"
                    (payments
                       (run_polls [(Fixture.world [Fixture.coin "A" 1], "inv-1");
                                   (Fixture.world [Fixture.coin "B" 2], "inv-1")]
                          Fixture.fresh))
                  = [1%float; 2%float]) by (vm_compute; reflexivity).
  rewrite Hrows in Hperm. symmetry in Hperm.
  apply Permutation_length_2_inv in Hperm.
  apply (f_equal (λ x, (x =? 3)%float)) in Hsum.
  destruct Hperm as [-> | ->]; vm_compute in Hsum; discriminate Hsum.
Qed.

(** * Further properties of the code *)

(** ** confirmPayment *)

Lemma dispatches_log c a ev s :
  dispatches c a (log ev s)
  = (dispatches c a s + if decide (ev = RpcCommand c a) then 1 else 0)%nat.
Proof.
  unfold dispatches, log. simpl. rewrite filter_app, length_app. f_equal.
  rewrite filter_cons, filter_nil. by destruct (decide _).
Qed.

(** The three ways [confirmPayment] ends. *)
Lemma confirmPayment_cases e g s :
  let s0 := log (ConfirmPaymentCalled g) s in
  match invoices s !! g with
  | None =>
      confirmPayment e g s
      = (Rejected (Error "No invoice found with the provided GUID"),
         log (ConsoleError "No invoice found with the provided GUID" None) s0)
  | Some inv =>
    let s1 := with_invoices (<[g := set_invoice_state paid inv]> (invoices s)) s0 in
    match subscription_id inv ≫= (λ sid, subscriptions s !! sid) with
    | None =>
        confirmPayment e g s
        = (Rejected (Error "Subscription not found."),
           log (ConsoleError "Error fetching subscription." None) s1)
    | Some r =>
      let s3 :=
        log (RpcCommand (cmd (data r)) (activation_arguments r))
          (with_subscriptions (alter (set_status active) (id r) (subscriptions s)) s1) in
      match activation e (cmd (data r)) (activation_arguments r) with
      | Some err =>
          confirmPayment e g s
          = (Rejected err,
             log (ConsoleError "Error updating invoice or subscription:" (Some err)) s3)
      | None => confirmPayment e g s = (Resolved (id r), s3)
      end
    end
  end.
Proof.
  unfold confirmPayment. simpl.
  destruct (invoices s !! g) as [inv|]; [|done]. simpl.
  destruct (subscription_id inv ≫= _) as [r|]; [|done]. simpl.
  by destruct (activation e (cmd (data r)) (activation_arguments r)).
Qed.

(** X6.  [confirmPayment] always settles.  With no invoice under the guid it
    rejects and leaves the four tables alone; it resolves, with the id of the
    subscription, exactly when the invoice exists, its subscription is found
    and the provisioning command goes through. *)
Theorem confirmPayment_outcome e g s :
  (confirmPayment e g s).1 ≠ Pending
  /\ (invoices s !! g = None ->
      (confirmPayment e g s).1 = Rejected (Error "No invoice found with the provided GUID")
      /\ same_tables s (confirmPayment e g s).2)
  /\ (∀ sid, (confirmPayment e g s).1 = Resolved sid
             <-> ∃ inv r, invoices s !! g = Some inv
                          /\ subscription_id inv ≫= (λ k, subscriptions s !! k) = Some r
                          /\ id r = sid
                          /\ activation e (cmd (data r))
                               (payload (data r)
                                ∪ {["subscriptionId" := JNumber (id r)]})
                             = None).
Proof.
  pose proof (confirmPayment_cases e g s) as H. simpl in H.
  unfold activation_arguments in H.
  destruct (invoices s !! g) as [inv|] eqn:Hinv.
  - destruct (subscription_id inv ≫= _) as [r|] eqn:Hjoin.
    + destruct (activation e (cmd (data r)) _) as [err|] eqn:Hact; rewrite H; simpl.
      * split_and!; [done..|]. intros sid. split; [done|].
        intros (inv' & r' & [= <-] & Hr' & _ & Hact'). rewrite Hjoin in Hr'.
        injection Hr' as <-. congruence.
      * split_and!; [done..|]. intros sid. split.
        -- intros [= <-]. by exists inv, r.
        -- intros (inv' & r' & [= <-] & Hr' & <- & _). rewrite Hjoin in Hr'.
           by injection Hr' as <-.
    + rewrite H. simpl. split_and!; [done..|]. intros sid. split; [done|].
      intros (inv' & r' & [= <-] & Hr' & _). congruence.
  - rewrite H. simpl. split_and!; [done| |].
    + intros _. by split.
    + intros sid. split; [done|]. by intros (inv' & r' & ? & _).
Qed.

Lemma confirmPayment_subscription e g s inv sid r :
  invoices s !! g = Some inv ->
  subscription_id inv = Some sid ->
  subscriptions s !! sid = Some r ->
  id r = sid ->
  subscriptions (confirmPayment e g s).2 !! sid = Some (set_status active r)
  /\ (∀ k, k ≠ sid ->
           subscriptions (confirmPayment e g s).2 !! k = subscriptions s !! k).
Proof.
  intros Hinv Hsid Hr Hid.
  pose proof (confirmPayment_cases e g s) as H. simpl in H.
  rewrite Hinv, Hsid in H. simpl in H. rewrite Hr, Hid in H.
  destruct (activation e (cmd (data r)) (activation_arguments r)); rewrite H; simpl.
  all: split; [by rewrite lookup_alter_eq, Hr|].
  all: intros k Hk; by rewrite lookup_alter_ne.
Qed.

(** X7.  The subscription an invoice is bound to is made active by
    [confirmPayment] whatever its status was, terminated included: the
    stored row has the status active and the other columns of the row that
    was there, and no other subscription changes. *)
Theorem confirmPayment_activates_any_status e g s inv sid r :
  invoices s !! g = Some inv ->
  subscription_id inv = Some sid ->
  subscriptions s !! sid = Some r ->
  id r = sid ->
  subscriptions (confirmPayment e g s).2 !! sid
  = Some (mkSubscription (id r) (user_id r) (product_key r) (start_date r)
                         (end_date r) active (data r))
  /\ status <$> subscriptions (confirmPayment e g s).2 !! sid = Some active
  /\ (∀ k, k ≠ sid ->
           subscriptions (confirmPayment e g s).2 !! k = subscriptions s !! k).
Proof.
  intros Hinv Hsid Hr Hid.
  destruct (confirmPayment_subscription e g s inv sid r Hinv Hsid Hr Hid) as [H1 H2].
  split_and!; [exact H1| |exact H2]. by rewrite H1.
Qed.

(** X8.  [confirmPayment] has no guard of its own: called again on the
    invoice it has just settled, it sends the provisioning command a second
    time, with the same arguments: the stored data of the subscription, and
    the subscription id where the data has no [subscriptionId] of its own. *)
Theorem confirmPayment_dispatches_each_time e e' g s inv sid r :
  invoices s !! g = Some inv ->
  subscription_id inv = Some sid ->
  subscriptions s !! sid = Some r ->
  id r = sid ->
  let s1 := (confirmPayment e g s).2 in
  let s2 := (confirmPayment e' g s1).2 in
  let a := payload (data r) ∪ {["subscriptionId" := JNumber sid]} in
  dispatches (cmd (data r)) a s1 = S (dispatches (cmd (data r)) a s)
  /\ dispatches (cmd (data r)) a s2 = S (S (dispatches (cmd (data r)) a s)).
Proof.
  intros Hinv Hsid Hr Hid.
  assert (Hone : ∀ e0 s0 inv0 r0,
    invoices s0 !! g = Some inv0 -> subscription_id inv0 = Some sid ->
    subscriptions s0 !! sid = Some r0 -> cmd (data r0) = cmd (data r) ->
    activation_arguments r0 = activation_arguments r ->
    dispatches (cmd (data r)) (activation_arguments r) (confirmPayment e0 g s0).2
    = S (dispatches (cmd (data r)) (activation_arguments r) s0)).
  { intros e0 s0 inv0 r0 Hi Hs Hr0 Hcmd Hargs.
    pose proof (confirmPayment_cases e0 g s0) as H. simpl in H.
    rewrite Hi, Hs in H. simpl in H. rewrite Hr0, Hcmd, Hargs in H.
    destruct (activation e0 (cmd (data r)) (activation_arguments r)); rewrite H; simpl;
      rewrite ?dispatches_log; simpl;
      rewrite ?decide_False by done; rewrite decide_True by done;
      unfold dispatches; simpl; rewrite filter_app, length_app; simpl; lia. }
  intros s1 s2 a.
  assert (Ha : a = activation_arguments r)
    by (subst a; unfold activation_arguments; by rewrite Hid).
  rewrite Ha.
  split; [by apply (Hone e s inv r)|].
  destruct (confirmPayment_subscription e g s inv sid r) as [Hr1 _]; try done.
  destruct (confirmPayment_effect e g s inv Hinv) as (Hi1 & _).
  subst s2. rewrite (Hone e' s1 (set_invoice_state paid inv) (set_status active r)).
  - f_equal. by apply (Hone e s inv r).
  - subst s1. by rewrite Hi1, lookup_insert_eq.
  - done.
  - done.
  - done.
  - done.
Qed.

(** ** checkForPayment *)

Lemma checkForPayment_no_list e g s inv :
  invoices s !! g = Some inv ->
  invoice_state inv = unpaid ->
  (∀ l, GET_TRANSACTIONS e (xch_payment_address inv) ≠ RpcResult l) ->
  ∃ err, checkForPayment e g s
         = (Rejected err, log (ConsoleError "Error fetching invoice:" (Some err)) s).
Proof.
  intros Hinv Hst Hget. unfold checkForPayment.
  rewrite Hinv, decide_False by (rewrite Hst; done).
  destruct (GET_TRANSACTIONS e (xch_payment_address inv)) as [err| |l] eqn:Hg; simpl.
  - by eexists.
  - by eexists.
  - by destruct (Hget l).
Qed.

(** The invoice row after a poll that was given a list. *)
Lemma invoice_after_unpaid_poll e g s inv l :
  invoices s !! g = Some inv ->
  invoice_state inv = unpaid ->
  GET_TRANSACTIONS e (xch_payment_address inv) = RpcResult l ->
  invoices (checkForPayment e g s).2 !! g
  = Some (if falsy (confirmed_sum l) then inv
          else if ge (confirmed_sum l) (total_amount_due inv)
               then set_invoice_state paid (set_amount_paid (confirmed_sum l) inv)
               else set_amount_paid (confirmed_sum l) inv).
Proof.
  intros Hinv Hst Hget.
  rewrite (checkForPayment_unpaid e g s inv l Hinv Hst Hget).
  destruct (falsy (confirmed_sum l)).
  { simpl. by rewrite invoices_after_ingestion. }
  set (s2 := with_invoices _ _).
  assert (Hl2 : invoices s2 !! g = Some (set_amount_paid (confirmed_sum l) inv)).
  { subst s2. simpl. by rewrite lookup_alter_eq, invoices_after_ingestion, Hinv. }
  destruct (ge (confirmed_sum l) (total_amount_due inv)); [|done].
  destruct (confirmPayment_effect e g s2 _ Hl2) as (Hi3 & _).
  destruct (confirmPayment e g s2) as [[?|?|] s3]; simpl in *;
    by rewrite Hi3, lookup_insert_eq.
Qed.

(** X1.  A poll turns an unpaid invoice into a paid one exactly when the
    node answers with a list whose confirmed total, the doubles added in the
    order of the list, is neither zero nor not a number and the amount due
    (0 for a NULL) is less than or equal to it; whether the activation that
    follows succeeds plays no part. *)
Theorem checkForPayment_settles_iff e g s inv :
  invoices s !! g = Some inv ->
  invoice_state inv = unpaid ->
  invoice_state <$> invoices (checkForPayment e g s).2 !! g = Some paid
  <-> ∃ l, GET_TRANSACTIONS e (xch_payment_address inv) = RpcResult l
           /\ (confirmed_sum l =? 0)%float = false
           /\ PrimFloat.is_nan (confirmed_sum l) = false
           /\ (default 0 (total_amount_due inv) <=? confirmed_sum l)%float = true.
Proof.
  intros Hinv Hst.
  destruct (GET_TRANSACTIONS e (xch_payment_address inv)) as [err| |l] eqn:Hget.
  3:{ rewrite (invoice_after_unpaid_poll e g s inv l Hinv Hst Hget). simpl.
      destruct (falsy (confirmed_sum l)) eqn:Hz.
      { rewrite Hst. split; [done|].
        intros (l' & [= <-] & H0 & Hn & _).
        rewrite (falsy_false _ H0 Hn) in Hz. done. }
      apply orb_false_iff in Hz. destruct Hz as [H0 Hn].
      destruct (ge (confirmed_sum l) (total_amount_due inv)) eqn:Hle; simpl.
      - split; [|done]. intros _. by exists l.
      - rewrite Hst. split; [done|]. intros (l' & [= <-] & _ & _ & Hle').
        unfold ge in Hle. congruence. }
  all: destruct (checkForPayment_no_list e g s inv Hinv Hst) as [err' ->];
    [intros l; by rewrite Hget|].
  all: simpl; rewrite Hinv; simpl; rewrite Hst.
  all: split; [done|]; by intros (l & ? & _).
Qed.

(** X3.  [checkForPayment] always settles.  With no invoice under the guid,
    or with a node that gives no list for an unpaid invoice, it rejects and
    leaves the four tables as they are. *)
Theorem checkForPayment_rejects_without_list e g s :
  (checkForPayment e g s).1 ≠ Pending
  /\ (invoices s !! g = None ->
      (checkForPayment e g s).1
      = Rejected (Error "No invoice found with the provided GUID")
      /\ same_tables s (checkForPayment e g s).2)
  /\ (∀ inv, invoices s !! g = Some inv ->
             invoice_state inv = unpaid ->
             (∀ l, GET_TRANSACTIONS e (xch_payment_address inv) ≠ RpcResult l) ->
             (∃ err, (checkForPayment e g s).1 = Rejected err)
             /\ same_tables s (checkForPayment e g s).2).
Proof.
  split_and!.
  - destruct (invoices s !! g) as [inv|] eqn:Hinv.
    2:{ unfold checkForPayment. by rewrite Hinv. }
    destruct (invoice_state inv) eqn:Hst.
    2:{ by rewrite (checkForPayment_paid e g s inv). }
    destruct (GET_TRANSACTIONS e (xch_payment_address inv)) as [err| |l] eqn:Hget.
    3:{ rewrite (checkForPayment_unpaid e g s inv l Hinv Hst Hget).
        destruct (falsy _); [done|].
        destruct (ge _ _); [|done].
        set (s2 := with_invoices _ _).
        assert (Hl2 : invoices s2 !! g = Some (set_amount_paid (confirmed_sum l) inv)).
        { subst s2. simpl. by rewrite lookup_alter_eq, invoices_after_ingestion, Hinv. }
        destruct (confirmPayment_effect e g s2 _ Hl2) as (_ & _ & _ & _ & Hnp).
        by destruct (confirmPayment e g s2) as [[?|?|] s3]. }
    all: destruct (checkForPayment_no_list e g s inv Hinv Hst) as [err' ->];
      [intros l; by rewrite Hget|done].
  - intros Hinv. unfold checkForPayment. rewrite Hinv. by split.
  - intros inv Hinv Hst Hget.
    destruct (checkForPayment_no_list e g s inv Hinv Hst Hget) as [err ->].
    split; [by eexists|done].
Qed.

Lemma confirmPayment_subscriptions e g s :
  subscriptions (confirmPayment e g s).2 = subscriptions s
  \/ ∃ j, subscriptions (confirmPayment e g s).2
          = alter (set_status active) j (subscriptions s).
Proof.
  pose proof (confirmPayment_cases e g s) as H. simpl in H.
  destruct (invoices s !! g) as [inv|]; [|rewrite H; by left].
  destruct (subscription_id inv ≫= _) as [r|]; [|rewrite H; by left].
  destruct (activation e (cmd (data r)) (activation_arguments r)); rewrite H; right; by exists (id r).
Qed.

(** A poll that reaches the amount due: what [confirmPayment] is given. *)
Lemma checkForPayment_at_threshold e g s inv l :
  invoices s !! g = Some inv ->
  invoice_state inv = unpaid ->
  GET_TRANSACTIONS e (xch_payment_address inv) = RpcResult l ->
  falsy (confirmed_sum l) = false ->
  ge (confirmed_sum l) (total_amount_due inv) = true ->
  ∃ s2, invoices s2 !! g = Some (set_amount_paid (confirmed_sum l) inv)
        /\ subscriptions s2 = subscriptions s
        /\ users s2 = users s
        /\ trace s2 = trace s
        /\ checkForPayment e g s
           = match confirmPayment e g s2 with
             | (Resolved _, s3) => (Resolved inv, s3)
             | (Rejected err, s3) => (Rejected err, s3)
             | (Pending, s3) => (Pending, s3)
             end.
Proof.
  intros Hinv Hst Hget Hnz Hle.
  rewrite (checkForPayment_unpaid e g s inv l Hinv Hst Hget).
  rewrite Hnz, Hle.
  destruct (insert_loop_frame l g 0%float s) as (Hsub & Hinvs & Husers & Htrace).
  eexists. split_and!; [| | | |reflexivity]; simpl; try done.
  by rewrite lookup_alter_eq, Hinvs, Hinv.
Qed.

Lemma checkForPayment_subscriptions e h s :
  subscriptions (checkForPayment e h s).2 = subscriptions s
  \/ ∃ j, subscriptions (checkForPayment e h s).2
          = alter (set_status active) j (subscriptions s).
Proof.
  destruct (invoices s !! h) as [inv|] eqn:Hinv.
  2:{ unfold checkForPayment. rewrite Hinv. by left. }
  destruct (invoice_state inv) eqn:Hst.
  2:{ rewrite (checkForPayment_paid e h s inv) by done. by left. }
  destruct (GET_TRANSACTIONS e (xch_payment_address inv)) as [err| |l] eqn:Hget.
  1,2: (destruct (checkForPayment_no_list e h s inv Hinv Hst) as [err' ->];
        [intros l; by rewrite Hget|by left]).
  destruct (falsy (confirmed_sum l)) eqn:Hz.
  { rewrite (checkForPayment_unpaid e h s inv l Hinv Hst Hget).
    rewrite Hz. simpl.
    left. by destruct (insert_loop_frame l h 0%float s) as (? & _). }
  destruct (ge (confirmed_sum l) (total_amount_due inv)) eqn:Hle.
  2:{ rewrite (checkForPayment_unpaid e h s inv l Hinv Hst Hget).
      rewrite Hz, Hle.
      simpl. left. by destruct (insert_loop_frame l h 0%float s) as (? & _). }
  destruct (checkForPayment_at_threshold e h s inv l) as (s2 & _ & Hs2 & _ & _ & ->);
    try done.
  destruct (confirmPayment_subscriptions e h s2) as [H|[j H]].
  - left. destruct (confirmPayment e h s2) as [[?|?|] s3]; simpl in *; congruence.
  - right. exists j.
    destruct (confirmPayment e h s2) as [[?|?|] s3]; simpl in *; congruence.
Qed.

Lemma poll_frame e h s :
  let s' := (checkForPayment e h s).2 in
  users s' = users s
  /\ (∀ g, g ≠ h -> invoices s' !! g = invoices s !! g)
  /\ (invoices s !! h = None -> invoices s' !! h = None)
  /\ (∀ inv, invoices s !! h = Some inv ->
        ∃ a st, invoices s' !! h = Some (set_invoice_state st (set_amount_paid a inv)))
  /\ (∀ k row, payments s !! k = Some row -> payments s' !! k = Some row)
  /\ (∀ k, k.1 ≠ h -> payments s' !! k = payments s !! k)
  /\ (∀ k, subscriptions s' !! k = subscriptions s !! k
           \/ subscriptions s' !! k = set_status active <$> subscriptions s !! k).
Proof.
  destruct (checkForPayment_footprint e h s) as (Hu & Hi & Hp & Hk & _ & _ & Hn).
  split_and!; try done.
  - intros inv Hinv.
    assert (Hsame : inv = set_invoice_state (invoice_state inv)
                            (set_amount_paid (amount_paid inv) inv))
      by (by destruct inv).
    destruct (invoice_state inv) eqn:Hst.
    2:{ rewrite (checkForPayment_paid e h s inv) by done. simpl.
        exists (amount_paid inv), paid. by rewrite <- Hsame. }
    destruct (GET_TRANSACTIONS e (xch_payment_address inv)) as [err| |l] eqn:Hget.
    1,2: (destruct (checkForPayment_no_list e h s inv Hinv Hst) as [err' ->];
          [intros l; by rewrite Hget|];
          simpl; exists (amount_paid inv), unpaid; by rewrite <- Hsame).
    rewrite (invoice_after_unpaid_poll e h s inv l Hinv Hst Hget).
    destruct (falsy _).
    { exists (amount_paid inv), unpaid. by rewrite <- Hsame. }
    destruct (ge _ _).
    + by exists (confirmed_sum l), paid.
    + exists (confirmed_sum l), unpaid. f_equal. destruct inv. simpl in *.
      by rewrite Hst.
  - intros k. destruct (checkForPayment_subscriptions e h s) as [->|[j ->]];
      [by left|].
    destruct (decide (j = k)) as [->|Hne].
    + right. by rewrite lookup_alter_eq.
    + left. by rewrite lookup_alter_ne.
Qed.


Lemma settlement_state e g s inv sid r l :
  invoices s !! g = Some inv ->
  invoice_state inv = unpaid ->
  subscription_id inv = Some sid ->
  subscriptions s !! sid = Some r ->
  id r = sid ->
  GET_TRANSACTIONS e (xch_payment_address inv) = RpcResult l ->
  falsy (confirmed_sum l) = false ->
  ge (confirmed_sum l) (total_amount_due inv) = true ->
  activation e (cmd (data r)) (activation_arguments r) = None ->
  let res := checkForPayment e g s in
  res.1 = Resolved inv
  /\ invoices res.2 !! g
     = Some (set_invoice_state paid (set_amount_paid (confirmed_sum l) inv))
  /\ subscriptions res.2 !! sid = Some (set_status active r)
  /\ dispatches (cmd (data r)) (activation_arguments r) res.2
     = S (dispatches (cmd (data r)) (activation_arguments r) s)
  /\ settlements g res.2 = S (settlements g s).
Proof.
  intros Hinv Hst Hsid Hr Hid Hget Hnz Hle Hact. simpl.
  destruct (checkForPayment_at_threshold e g s inv l)
    as (s2 & Hi2 & Hs2 & _ & Ht2 & ->); try done.
  pose proof (confirmPayment_cases e g s2) as H. simpl in H.
  rewrite Hi2 in H. simpl in H. rewrite Hsid in H. simpl in H.
  rewrite Hs2, Hr, Hact in H. rewrite H. simpl.
  split_and!; try done.
  - by rewrite lookup_insert_eq.
  - by rewrite Hid, lookup_alter_eq, Hr.
  - unfold dispatches. simpl. rewrite Ht2.
    rewrite ?filter_app, ?length_app, ?filter_cons, ?filter_nil.
    repeat case_decide; simpl; try lia; congruence.
  - unfold settlements. simpl. rewrite Ht2.
    rewrite ?filter_app, ?length_app, ?filter_cons, ?filter_nil.
    repeat case_decide; simpl; try lia; congruence.
Qed.

(** X4.  A poll whose confirmed total, the doubles added in the order of
    the list, is neither zero nor not a number and not below the amount due,
    for an invoice bound to an existing subscription and with the
    provisioning command going through: the stored invoice has the status
    paid and the whole total as its amount paid, overpayment included; the
    stored subscription has the status active; the command was sent once,
    with the stored data and the subscription id; and the promise resolves
    with the invoice as it was read, still unpaid and with the old amount. *)
Theorem checkForPayment_settlement e g s inv sid r l :
  invoices s !! g = Some inv ->
  invoice_state inv = unpaid ->
  subscription_id inv = Some sid ->
  subscriptions s !! sid = Some r ->
  id r = sid ->
  GET_TRANSACTIONS e (xch_payment_address inv) = RpcResult l ->
  (confirmed_sum l =? 0)%float = false ->
  PrimFloat.is_nan (confirmed_sum l) = false ->
  (default 0 (total_amount_due inv) <=? confirmed_sum l)%float = true ->
  let a := payload (data r) ∪ {["subscriptionId" := JNumber sid]} in
  activation e (cmd (data r)) a = None ->
  let res := checkForPayment e g s in
  res.1 = Resolved inv
  /\ invoices res.2 !! g
     = Some (mkInvoice (guid inv) (subscription_id inv) (issue_date inv) (due_date inv)
                       (total_amount_due inv) (confirmed_sum l)
                       (xch_payment_address inv) paid)
  /\ subscriptions res.2 !! sid
     = Some (mkSubscription (id r) (user_id r) (product_key r) (start_date r)
                            (end_date r) active (data r))
  /\ dispatches (cmd (data r)) a res.2 = S (dispatches (cmd (data r)) a s)
  /\ settlements g res.2 = S (settlements g s).
Proof.
  intros Hinv Hst Hsid Hr Hid Hget H0 Hn Hle a.
  assert (Ha : a = activation_arguments r)
    by (subst a; unfold activation_arguments; by rewrite Hid).
  rewrite Ha. intros Hact.
  apply (settlement_state e g s inv sid r l); try done.
  by apply falsy_false.
Qed.

(** X5.  A poll that reaches the amount due marks the invoice paid before
    anything else: when the subscription is not found, or the provisioning
    command fails, the poll rejects, the invoice stays paid, and every later
    poll of it is the no-op of a paid invoice, so that the activation is not
    tried again.  The amount due is reached when the confirmed total, the
    doubles added in the order of the list, is neither zero nor not a number
    and the amount due (0 for a NULL) is less than or equal to it. *)
Theorem settlement_is_not_retried e g s inv l :
  invoices s !! g = Some inv ->
  invoice_state inv = unpaid ->
  GET_TRANSACTIONS e (xch_payment_address inv) = RpcResult l ->
  (confirmed_sum l =? 0)%float = false ->
  PrimFloat.is_nan (confirmed_sum l) = false ->
  (default 0 (total_amount_due inv) <=? confirmed_sum l)%float = true ->
  let res := checkForPayment e g s in
  let settled :=
    mkInvoice (guid inv) (subscription_id inv) (issue_date inv) (due_date inv)
              (total_amount_due inv) (confirmed_sum l) (xch_payment_address inv) paid in
  (subscription_id inv ≫= (λ k, subscriptions s !! k) = None ->
     res.1 = Rejected (Error "Subscription not found.")
     /\ subscriptions res.2 = subscriptions s)
  /\ (∀ r err,
        subscription_id inv ≫= (λ k, subscriptions s !! k) = Some r ->
        activation e (cmd (data r))
                   (payload (data r) ∪ {["subscriptionId" := JNumber (id r)]})
        = Some err ->
        res.1 = Rejected err
        /\ subscriptions res.2
           = alter (λ r, mkSubscription (id r) (user_id r) (product_key r)
                                        (start_date r) (end_date r) active (data r))
                   (id r) (subscriptions s))
  /\ invoices res.2 !! g = Some settled
  /\ ∀ e', checkForPayment e' g res.2 = (Resolved settled, res.2).
Proof.
  intros Hinv Hst Hget H0 Hn Hle res settled.
  pose proof (falsy_false _ H0 Hn) as Hnz.
  change (ge (confirmed_sum l) (total_amount_due inv) = true) in Hle.
  assert (Hpaid : invoices res.2 !! g = Some settled).
  { subst res settled. rewrite (invoice_after_unpaid_poll e g s inv l Hinv Hst Hget).
    by rewrite Hnz, Hle. }
  split_and!; [| |done|].
  - intros Hjoin. subst res.
    destruct (checkForPayment_at_threshold e g s inv l)
      as (s2 & Hi2 & Hs2 & _ & _ & ->); try done.
    pose proof (confirmPayment_cases e g s2) as H. simpl in H.
    rewrite Hi2 in H. simpl in H. rewrite Hs2, Hjoin in H. by rewrite H.
  - intros r err Hjoin Hact. subst res.
    destruct (checkForPayment_at_threshold e g s inv l)
      as (s2 & Hi2 & Hs2 & _ & _ & ->); try done.
    pose proof (confirmPayment_cases e g s2) as H. simpl in H.
    rewrite Hi2 in H. simpl in H. rewrite Hs2, Hjoin in H.
    change (payload (data r) ∪ {["subscriptionId" := JNumber (id r)]})
      with (activation_arguments r) in Hact.
    rewrite Hact in H. by rewrite H.
  - intros e'. by apply checkForPayment_paid.
Qed.

(** ** insertTransactionsAndCalculateSum *)

Lemma insert_loop_confirmed_only l g acc s :
  insert_loop l g acc s = insert_loop (filter (λ t, confirmed t = true) l) g acc s.
Proof.
  revert acc s. induction l as [|t l IH]; intros acc s; [done|].
  rewrite filter_cons. simpl. destruct (confirmed t) eqn:Hc; simpl.
  - rewrite Hc. apply IH.
  - apply IH.
Qed.

(** X21.  Transactions that are not confirmed play no part: the sum and the
    store are those of the confirmed transactions of the list alone. *)
Theorem unconfirmed_transactions_are_skipped l g s :
  insertTransactionsAndCalculateSum l g s
  = insertTransactionsAndCalculateSum (filter (λ t, confirmed t = true) l) g s.
Proof. apply insert_loop_confirmed_only. Qed.

(** X22.  Ingestion only adds rows, and only under the invoice it is called
    for: a row that is there stays as it is, the rows of other invoices are
    the same, a new row comes from a confirmed transaction of the list, and
    ingesting the same list once more changes nothing in the table. *)
Theorem ingestion_only_adds l g s :
  let s1 := (insertTransactionsAndCalculateSum l g s).2 in
  (∀ k row, payments s !! k = Some row -> payments s1 !! k = Some row)
  /\ (∀ k, k.1 ≠ g -> payments s1 !! k = payments s !! k)
  /\ (∀ k row, payments s !! k = None -> payments s1 !! k = Some row ->
        ∃ t, t ∈ l /\ confirmed t = true /\ k = (g, name t)
             /\ row = payment_of g t)
  /\ payments (insertTransactionsAndCalculateSum l g s1).2 = payments s1.
Proof.
  unfold insertTransactionsAndCalculateSum. split_and!.
  - intros k row. apply insert_loop_keeps.
  - intros k. apply insert_loop_other.
  - intros k row Hnone. rewrite insert_loop_payments.
    intros [Hold|[_ Hnew]]%lookup_union_Some_raw; [congruence|].
    apply elem_of_list_to_map_2 in Hnew. unfold payment_rows in Hnew.
    apply list_elem_of_fmap in Hnew. destruct Hnew as (t & [= -> ->] & Ht).
    apply list_elem_of_filter in Ht. destruct Ht as [Hc Hin]. by exists t.
  - rewrite !insert_loop_payments. apply map_eq. intros k.
    rewrite !lookup_union.
    destruct (payments s !! k), (list_to_map (payment_rows g l) !! k); done.
Qed.

(** ** renewSubscription and terminateSubscription *)

Lemma valid_next_year d :
  valid d -> ~ (month d = 1 /\ day d = 29) ->
  valid (mkDate (year d + 1) (month d) (day d) (msec d)).
Proof.
  intros (Hm & Hd & Ht) Hleap. unfold valid. simpl. split_and!; try lia.
  destruct (decide (month d = 1)) as [H1|H1].
  - rewrite H1 in *. pose proof (days_in_february (year d)).
    pose proof (days_in_february (year d + 1)). lia.
  - rewrite (days_in_month_year _ (year d) _ H1). lia.
Qed.

Lemma setFullYear_later d :
  valid d ->
  valid (setFullYear d (getFullYear d + 1))
  /\ JsDate.key d < JsDate.key (setFullYear d (getFullYear d + 1)).
Proof.
  intros Hv. destruct (decide (month d = 1 /\ day d = 29)) as [[H1 H29]|Hn].
  - rewrite setFullYear_leap_day by done. destruct Hv as (Hm & Hd & Ht).
    unfold valid, JsDate.key. simpl. rewrite H1, H29. split; [|lia].
    split_and!; lia.
  - rewrite setFullYear_next_year by done. split; [by apply valid_next_year|].
    destruct Hv as (Hm & Hd & Ht). unfold JsDate.key. simpl. lia.
Qed.

(** X9.  [renewSubscription] resolves exactly for a subscription that exists
    and is not terminated.  For an unknown id and for a terminated
    subscription it rejects, each with its own error, and the four tables,
    the end date among them, are left as they are. *)
Theorem renewSubscription_rejections subscriptionId s :
  ((∃ r', (renewSubscription subscriptionId s).1 = Resolved r')
   <-> ∃ r, subscriptions s !! subscriptionId = Some r /\ status r ≠ terminated)
  /\ (subscriptions s !! subscriptionId = None ->
      (renewSubscription subscriptionId s).1 = Rejected (Error "Subscription not found")
      /\ same_tables s (renewSubscription subscriptionId s).2)
  /\ (∀ r, subscriptions s !! subscriptionId = Some r -> status r = terminated ->
      (renewSubscription subscriptionId s).1
      = Rejected (Error "Cannot renew a terminated subscription")
      /\ same_tables s (renewSubscription subscriptionId s).2).
Proof.
  unfold renewSubscription.
  destruct (subscriptions s !! subscriptionId) as [r|] eqn:Hr.
  - destruct (decide (status r = terminated)) as [Ht|Ht]; simpl.
    + split_and!; [|done|by intros r' [= <-] _].
      split; [by intros [r' ?]|]. intros (r' & [= <-] & Hn). done.
    + split_and!; [|done|intros r' [= <-] ?; done].
      split; [intros _; by exists r|intros _; by eexists].
  - simpl. split_and!; [|done|done].
    split; [by intros [r' ?]|]. by intros (r & ? & _).
Qed.

Lemma renew_times_end_date n subscriptionId s r :
  subscriptions s !! subscriptionId = Some r ->
  status r ≠ terminated ->
  valid (end_date r) ->
  ~ (month (end_date r) = 1 /\ day (end_date r) = 29) ->
  subscriptions (renew_times n subscriptionId s) !! subscriptionId
  = Some (set_end_date
            (mkDate (year (end_date r) + Z.of_nat n) (month (end_date r))
                    (day (end_date r)) (msec (end_date r))) r).
Proof.
  revert s r. induction n as [|n IH]; intros s r Hr Hst Hv Hleap.
  - simpl. rewrite Hr. f_equal. destruct r as [? ? ? ? [y m d t] ? ?]. simpl.
    by rewrite Z.add_0_r.
  - simpl. unfold renewSubscription at 1. rewrite Hr, decide_False by done. simpl.
    rewrite (setFullYear_next_year _ Hv Hleap).
    rewrite (IH _ (set_end_date
                     (mkDate (year (end_date r) + 1) (month (end_date r))
                             (day (end_date r)) (msec (end_date r))) r)).
    + simpl. unfold set_end_date. simpl. do 3 f_equal. lia.
    + simpl. by rewrite lookup_alter_eq, Hr.
    + done.
    + simpl. by apply valid_next_year.
    + done.
Qed.

(** X10.  Renewals add up: after [n] renewals of a subscription that is not
    terminated, and does not end on a leap day, the stored row has the end
    date [n] years on, the same day and time, and the other columns of the
    row that was there. *)
Theorem renew_times_adds_years n subscriptionId s r :
  subscriptions s !! subscriptionId = Some r ->
  status r ≠ terminated ->
  valid (end_date r) ->
  ~ (month (end_date r) = 1 /\ day (end_date r) = 29) ->
  let newEndDate :=
    mkDate (year (end_date r) + Z.of_nat n) (month (end_date r))
           (day (end_date r)) (msec (end_date r)) in
  subscriptions (renew_times n subscriptionId s) !! subscriptionId
  = Some (mkSubscription (id r) (user_id r) (product_key r) (start_date r)
                         newEndDate (status r) (data r))
  /\ end_date <$> subscriptions (renew_times n subscriptionId s) !! subscriptionId
     = Some newEndDate.
Proof.
  intros Hr Hst Hv Hleap newEndDate.
  rewrite (renew_times_end_date n subscriptionId s r Hr Hst Hv Hleap). done.
Qed.

(** X11.  A renewal keeps the dates of the row in order: the new end date is
    a date again, strictly later than the old one, hence still not before the
    start date. *)
Theorem renewSubscription_keeps_dates_ordered subscriptionId s r :
  subscriptions s !! subscriptionId = Some r ->
  status r ≠ terminated ->
  dates_ordered r ->
  ∃ r', subscriptions (renewSubscription subscriptionId s).2 !! subscriptionId = Some r'
        /\ dates_ordered r'
        /\ JsDate.key (end_date r) < JsDate.key (end_date r').
Proof.
  intros Hr Hst (Hvs & Hve & Hle). unfold renewSubscription.
  rewrite Hr, decide_False by done. simpl. eexists.
  rewrite lookup_alter_eq, Hr. simpl. split; [done|].
  destruct (setFullYear_later (end_date r) Hve) as [Hv' Hlt].
  unfold dates_ordered. simpl. split_and!; try done. lia.
Qed.

Lemma terminate_twice (m : gmap Z subscription) k :
  alter (set_status terminated) k (alter (set_status terminated) k m)
  = alter (set_status terminated) k m.
Proof.
  apply map_eq. intros j. destruct (decide (k = j)) as [->|Hne].
  - rewrite !lookup_alter_eq. by destruct (m !! j).
  - by rewrite !lookup_alter_ne.
Qed.

(** X12.  [terminateSubscription] rejects for an unknown id and leaves the
    tables alone.  For any subscription that exists, whatever its status, it
    resolves with the row, its status being terminated and its other columns
    what they were, and stores just that: no other row, no other table
    changes; terminating once more gives the same answer and the same
    store. *)
Theorem terminateSubscription_effect subscriptionId s :
  (subscriptions s !! subscriptionId = None ->
     (terminateSubscription subscriptionId s).1
     = Rejected (Error "Subscription not found")
     /\ same_tables s (terminateSubscription subscriptionId s).2)
  /\ (∀ r, subscriptions s !! subscriptionId = Some r ->
        let res := terminateSubscription subscriptionId s in
        let ended :=
          mkSubscription (id r) (user_id r) (product_key r) (start_date r)
                         (end_date r) terminated (data r) in
        res.1 = Resolved ended
        /\ subscriptions res.2 !! subscriptionId = Some ended
        /\ status <$> subscriptions res.2 !! subscriptionId = Some terminated
        /\ (∀ k, k ≠ subscriptionId -> subscriptions res.2 !! k = subscriptions s !! k)
        /\ invoices res.2 = invoices s /\ payments res.2 = payments s
        /\ users res.2 = users s /\ trace res.2 = trace s
        /\ terminateSubscription subscriptionId res.2 = (Resolved ended, res.2)).
Proof.
  unfold terminateSubscription.
  destruct (subscriptions s !! subscriptionId) as [r|] eqn:Hr.
  - split; [done|]. intros r' [= <-]. simpl. split_and!; try done.
    + by rewrite lookup_alter_eq, Hr.
    + by rewrite lookup_alter_eq, Hr.
    + intros k Hk. by rewrite lookup_alter_ne.
    + rewrite lookup_alter_eq, Hr. simpl. unfold with_subscriptions. simpl.
      by rewrite terminate_twice.
  - split; [|done]. intros _. by split.
Qed.

(** X13.  Once terminated a subscription cannot be renewed: the renewal
    rejects, and the row keeps the end date it had and stays terminated. *)
Theorem terminated_subscription_is_not_renewed subscriptionId s r :
  subscriptions s !! subscriptionId = Some r ->
  let s1 := (terminateSubscription subscriptionId s).2 in
  (renewSubscription subscriptionId s1).1
  = Rejected (Error "Cannot renew a terminated subscription")
  /\ subscriptions (renewSubscription subscriptionId s1).2 !! subscriptionId
     = Some (set_status terminated r)
  /\ end_date (set_status terminated r) = end_date r.
Proof.
  intros Hr. unfold terminateSubscription. rewrite Hr. simpl.
  unfold renewSubscription. simpl. rewrite lookup_alter_eq, Hr. simpl.
  split_and!; try done. by rewrite lookup_alter_eq, Hr.
Qed.

(** ** setSubscriptionsToGracePeriod *)

Lemma select_with_email_ids (P : subscription -> bool) s :
  subscriptions_keyed s ->
  NoDup ((λ row : subscription * string, id row.1) <$> select_with_email P s).
Proof.
  intros Hk. unfold select_with_email.
  assert (Hl : ∀ kr, kr ∈ map_to_list (subscriptions s) -> id kr.2 = kr.1).
  { intros [k r] Hin. apply elem_of_map_to_list in Hin. by apply Hk. }
  pose proof (NoDup_fst_map_to_list (subscriptions s)) as Hnd.
  induction (map_to_list (subscriptions s)) as [|[k r] l IH]; simpl.
  - constructor.
  - apply NoDup_cons in Hnd. destruct Hnd as [Hnotin Hnd].
    assert (Hl' : ∀ kr, kr ∈ l -> id kr.2 = kr.1)
      by (intros kr Hin; by apply Hl, list_elem_of_further).
    specialize (IH Hl' Hnd).
    destruct (P r); [|done].
    destruct (users s !! user_id r) as [u|]; [|done]. simpl.
    apply NoDup_cons. split; [|done].
    intros Hin. apply Hnotin. apply list_elem_of_fmap in Hin.
    destruct Hin as ([r' a] & Hid & Hin'). simpl in Hid.
    apply list_elem_of_omap in Hin'. destruct Hin' as ([k' r''] & Hin'' & Hf).
    simpl in Hf. destruct (P r''); [|done].
    destruct (users s !! user_id r''); [|done]. simpl in Hf. injection Hf as <- _.
    apply list_elem_of_fmap. exists (k', r''). split; [|done]. simpl.
    pose proof (Hl' (k', r'') Hin'') as H1.
    pose proof (Hl (k, r) (list_elem_of_here _ _)) as H2. simpl in *. congruence.
Qed.

Lemma lookup_foldr_alter (f : subscription -> subscription) (m : gmap Z subscription)
    (ids : list Z) k :
  (∀ x, f (f x) = f x) ->
  foldr (alter f) m ids !! k = if decide (k ∈ ids) then f <$> m !! k else m !! k.
Proof.
  intros Hf. induction ids as [|i ids IH].
  - destruct (decide (k ∈ [])) as [H|H]; [by apply elem_of_nil in H|done].
  - cbn [foldr]. destruct (decide (k ∈ i :: ids)) as [Hin|Hnin].
    + destruct (decide (i = k)) as [->|Hne].
      * rewrite lookup_alter_eq, IH. destruct (decide (k ∈ ids)); [|done].
        destruct (m !! k); simpl; [|done]. by rewrite Hf.
      * rewrite lookup_alter_ne, IH by done.
        apply elem_of_cons in Hin. destruct Hin as [->|Hin]; [done|].
        by rewrite decide_True.
    + apply not_elem_of_cons in Hnin. destruct Hnin as [Hne Hnin].
      rewrite lookup_alter_ne, IH by done. by rewrite decide_False.
Qed.

Lemma remove_dups_NoDup (l : list Z) : NoDup l -> remove_dups l = l.
Proof.
  induction 1 as [|x l Hx _ IH]; simpl; [done|].
  destruct (decide_rel elem_of x l) as [H|H]; [done|]. by rewrite IH.
Qed.

Lemma filter_all (P : Z -> Prop) `{∀ x, Decision (P x)} (l : list Z) :
  (∀ x, x ∈ l -> P x) -> filter P l = l.
Proof.
  induction l as [|x l IH]; intros Hall; [done|].
  rewrite filter_cons, decide_True by (apply Hall, list_elem_of_here).
  rewrite IH; [done|]. intros y Hy. by apply Hall, list_elem_of_further.
Qed.

(** Whether [setSubscriptionsToGracePeriod] selects the row: active, ending
    today at midnight, and with a user to write to. *)
Lemma grace_selected e s k r :
  subscriptions_keyed s ->
  subscriptions s !! k = Some r ->
  k ∈ (λ row : subscription * string, id row.1) <$> grace_rows e s
  <-> expired_on (setHours0 (now e)) r = true /\ is_Some (users s !! user_id r).
Proof.
  intros Hk Hr. rewrite list_elem_of_fmap. split.
  - intros ([r' a] & Hid & Hin). apply elem_of_select_with_email in Hin.
    destruct Hin as (k' & u & Hk' & HP & Hu & _). simpl in *.
    pose proof (Hk _ _ Hk') as Hkk. assert (Hsame : k' = k) by congruence.
    rewrite Hsame, Hr in Hk'. injection Hk' as ->. by split; [|exists u].
  - intros [HP [u Hu]]. exists (r, email u).
    split; [simpl; symmetry; by apply Hk|].
    apply elem_of_select_with_email. by exists k, u.
Qed.

Lemma setSubscriptionsToGracePeriod_tables e s :
  let res := setSubscriptionsToGracePeriod e s in
  subscriptions res.2
  = foldr (alter (set_status grace_period)) (subscriptions s)
          ((λ row : subscription * string, id row.1) <$> grace_rows e s)
  /\ invoices res.2 = invoices s /\ payments res.2 = payments s
  /\ users res.2 = users s.
Proof.
  unfold setSubscriptionsToGracePeriod, grace_rows.
  destruct (select_with_email _ s) as [|row rows] eqn:Hrows; [done|].
  assert (Hg : ∀ rs st, subscriptions (grace_emails e rs st) = subscriptions st
                        /\ invoices (grace_emails e rs st) = invoices st
                        /\ payments (grace_emails e rs st) = payments st
                        /\ users (grace_emails e rs st) = users st).
  { induction rs as [|[r a] rs IH]; intros st; [done|]. simpl.
    destruct (IH (match sendEmail e a with
                  | Some err => log (ConsoleError "Error sending grace period email:"
                                       (Some err)) st
                  | None => log (EmailSent a "Your Subscription Has Expired"
                       "Your subscription has expired. You have a grace period of 15 days to renew your subscription.") st
                  end)) as (-> & -> & -> & ->).
    by destruct (sendEmail e a). }
  cbn [snd]. destruct (Hg (row :: rows)
    (with_subscriptions
       (foldr (alter (set_status grace_period)) (subscriptions s)
          ((λ row0 : subscription * string, id row0.1) <$> row :: rows)) s))
    as (-> & -> & -> & ->).
  done.
Qed.

Lemma setSubscriptionsToGracePeriod_rows e s :
  subscriptions_keyed s ->
  let res := setSubscriptionsToGracePeriod e s in
  res.1 = Resolved (Z.of_nat (length (grace_rows e s)))
  /\ ∀ k, subscriptions res.2 !! k
          = (λ r, if expired_on (setHours0 (now e)) r
                     && bool_decide (is_Some (users s !! user_id r))
                  then set_status grace_period r else r) <$> subscriptions s !! k.
Proof.
  intros Hk res.
  destruct (setSubscriptionsToGracePeriod_tables e s) as (Hs & Hi & Hp & Hu).
  split.
  - subst res. unfold setSubscriptionsToGracePeriod. fold (grace_rows e s).
    destruct (grace_rows e s) as [|row rows] eqn:Hrows; [done|]. cbn [fst].
    do 2 f_equal.
    pose proof (select_with_email_ids (expired_on (setHours0 (now e))) s Hk) as Hnd.
    fold (grace_rows e s) in Hnd. rewrite Hrows in Hnd.
    rewrite remove_dups_NoDup by done.
    rewrite filter_all; [by rewrite length_fmap|].
    intros x Hx. apply list_elem_of_fmap in Hx. destruct Hx as ([r a] & -> & Hin).
    rewrite <- Hrows in Hin. apply elem_of_select_with_email in Hin.
    destruct Hin as (k' & u & Hk' & _). cbn [fst] in *.
    rewrite <- (Hk _ _ Hk') in Hk'. by eexists.
  - intros k. subst res. rewrite Hs.
    rewrite lookup_foldr_alter by done.
    destruct (subscriptions s !! k) as [r|] eqn:Hr; simpl.
    + pose proof (grace_selected e s k r Hk Hr) as Hsel.
      destruct (decide (k ∈ _)) as [Hin|Hnin].
      * apply Hsel in Hin. destruct Hin as [-> Hu']. simpl.
        by rewrite bool_decide_eq_true_2.
      * destruct (expired_on (setHours0 (now e)) r) eqn:HP; [|done]. simpl.
        case_bool_decide as Hu'; [|done]. destruct Hnin. by apply Hsel.
    + by destruct (decide _).
Qed.

(** The rows of a selection are as many as the rows that pass its test and
    have a user. *)
Lemma select_with_email_length (P : subscription -> bool) s :
  length (select_with_email P s)
  = length (filter (λ kr : Z * subscription,
                      P kr.2 = true /\ is_Some (users s !! user_id kr.2))
                   (map_to_list (subscriptions s))).
Proof.
  unfold select_with_email.
  induction (map_to_list (subscriptions s)) as [|[k r] l IH]; [done|].
  rewrite filter_cons. cbn [omap list_omap snd].
  destruct (decide _) as [[HP [u Hu]]|Hn].
  - cbn [snd] in HP, Hu. rewrite HP, Hu. simpl. by rewrite IH.
  - cbn [snd] in Hn. destruct (P r) eqn:HP; [|done].
    destruct (users s !! user_id r) as [u|] eqn:Hu; [|done].
    destruct Hn. split; [done|by eexists].
Qed.

Lemma expired_on_spec currentDate r :
  expired_on currentDate r = true
  <-> status r = active /\ JsDate.key (end_date r) = JsDate.key currentDate.
Proof.
  unfold expired_on, JsDate.eqb.
  rewrite andb_true_iff, bool_decide_eq_true, Z.eqb_eq. done.
Qed.

(** X14.  In a store whose subscription rows are keyed by their id,
    [setSubscriptionsToGracePeriod] moves the rows that are active, end
    today at midnight and have a user, and no other: each of them is stored
    with the status grace_period and its other columns as they were, every
    other row is as it was, no row appears, the other tables are unchanged,
    and the promise resolves with the number of rows moved. *)
Theorem setSubscriptionsToGracePeriod_effect e s :
  subscriptions_keyed s ->
  let res := setSubscriptionsToGracePeriod e s in
  let today := mkDate (year (now e)) (month (now e)) (day (now e)) 0 in
  let moves (r : subscription) : Prop :=
    (status r = active /\ JsDate.key (end_date r) = JsDate.key today)
    /\ is_Some (users s !! user_id r) in
  res.1
  = Resolved (Z.of_nat (length (filter (λ kr : Z * subscription, moves kr.2)
                                       (map_to_list (subscriptions s)))))
  /\ invoices res.2 = invoices s /\ payments res.2 = payments s
  /\ users res.2 = users s
  /\ (∀ k r, subscriptions s !! k = Some r -> moves r ->
        subscriptions res.2 !! k
        = Some (mkSubscription (id r) (user_id r) (product_key r) (start_date r)
                               (end_date r) grace_period (data r)))
  /\ (∀ k r, subscriptions s !! k = Some r -> ~ moves r ->
        subscriptions res.2 !! k = Some r)
  /\ (∀ k, subscriptions s !! k = None -> subscriptions res.2 !! k = None).
Proof.
  intros Hk res today moves.
  destruct (setSubscriptionsToGracePeriod_tables e s) as (_ & Hi & Hp & Hu).
  destruct (setSubscriptionsToGracePeriod_rows e s Hk) as [Hn Hrows].
  fold res in Hi, Hp, Hu, Hn, Hrows.
  assert (Hmoves : ∀ r, moves r
            <-> expired_on (setHours0 (now e)) r
                && bool_decide (is_Some (users s !! user_id r)) = true).
  { intros r. subst moves. cbn beta.
    rewrite andb_true_iff, bool_decide_eq_true, expired_on_spec. done. }
  split_and!; try done.
  - rewrite Hn. do 2 f_equal. unfold grace_rows.
    rewrite select_with_email_length. f_equal.
    apply list_filter_iff. intros [k r]. cbn [snd]. subst moves. cbn beta.
    by rewrite expired_on_spec.
  - intros k r Hr Hm. rewrite Hrows, Hr. simpl.
    apply Hmoves in Hm. by rewrite Hm.
  - intros k r Hr Hm. rewrite Hrows, Hr. simpl.
    destruct (expired_on _ _ && _) eqn:Hb; [|done].
    destruct Hm. by apply Hmoves.
  - intros k Hr. by rewrite Hrows, Hr.
Qed.

(** X15.  Run again for the same day, on a store keyed by id,
    [setSubscriptionsToGracePeriod] finds nothing left to move: it resolves
    with 0 and changes nothing, sending no email. *)
Theorem setSubscriptionsToGracePeriod_twice e e' s :
  subscriptions_keyed s ->
  setHours0 (now e') = setHours0 (now e) ->
  let s1 := (setSubscriptionsToGracePeriod e s).2 in
  setSubscriptionsToGracePeriod e' s1 = (Resolved 0, s1).
Proof.
  intros Hk Hday s1.
  destruct (setSubscriptionsToGracePeriod_tables e s) as (Hs & _ & _ & Hu).
  fold s1 in Hs, Hu.
  assert (Hnone : grace_rows e' s1 = []).
  { apply elem_of_nil_inv. intros [r a] Hin.
    apply elem_of_select_with_email in Hin.
    destruct Hin as (k & u & Hk1 & HP & Hu1 & _). simpl in *.
    rewrite Hday in HP. rewrite Hs, lookup_foldr_alter in Hk1 by done.
    rewrite Hu in Hu1.
    destruct (subscriptions s !! k) as [r0|] eqn:Hr0.
    2:{ by destruct (decide _). }
    destruct (decide (k ∈ _)) as [Hin|Hnin].
    - simpl in Hk1. injection Hk1 as <-. unfold expired_on in HP. simpl in HP.
      discriminate HP.
    - injection Hk1 as ->. destruct Hnin. apply (grace_selected e s k r Hk Hr0).
      by split; [|exists u]. }
  unfold setSubscriptionsToGracePeriod. fold (grace_rows e' s1). by rewrite Hnone.
Qed.

(** X16.  Each selected row gets one email attempt, in the order of the
    selection, and a failure for one row stops none of the others: the trace
    grows by one event per row, the email sent or the error logged. *)
Theorem setSubscriptionsToGracePeriod_mails e s :
  trace (setSubscriptionsToGracePeriod e s).2
  = (trace s ++ (grace_mail e <$> grace_rows e s))%list.
Proof.
  assert (Hg : ∀ rs st,
    trace (grace_emails e rs st) = (trace st ++ (grace_mail e <$> rs))%list).
  { induction rs as [|[r a] rs IH]; intros st; simpl.
    - by rewrite app_nil_r.
    - rewrite IH. unfold grace_mail at 2. simpl.
      destruct (sendEmail e a); simpl; by rewrite <- app_assoc. }
  unfold setSubscriptionsToGracePeriod. fold (grace_rows e s).
  destruct (grace_rows e s) as [|row rows] eqn:Hrows.
  - simpl. by rewrite app_nil_r.
  - cbn [snd]. by rewrite Hg.
Qed.

(** ** createInvoice and createSubscription *)

(** [createInvoice] once the node has handed out an address and the guid is
    free: the row is inserted, and the mailer decides how the promise ends. *)
Lemma createInvoice_with_address e userId subscriptionId p s address u :
  GET_NEW_PAYMENT_ADDRESS e = RpcResult address ->
  address ≠ "" ->
  invoices s !! uuidv4 e = None ->
  users s !! userId = Some u ->
  let row :=
    mkInvoice (uuidv4 e) subscriptionId (now e)
              (setFullYear (now e) (getFullYear (now e) + 1)) (cost p) 0%float
              address unpaid in
  let s1 := with_invoices (<[uuidv4 e := row]> (invoices s)) s in
  createInvoice e userId subscriptionId (Some p) s
  = match sendEmail e (email u) with
    | Some err =>
        (Rejected err,
         log (ConsoleError "Error creating invoice or fetching invoice:" (Some err)) s1)
    | None =>
        (Resolved (mkCreatedInvoice (uuidv4 e) subscriptionId (now e)
                     (setFullYear (now e) (getFullYear (now e) + 1)) (cost p)
                     address unpaid),
         log (EmailSent (email u) "Your Invoice"
                ("Please pay the invoice at "
                 +:+ ("https://app." +:+ SERVICE_DOMAIN e +:+ "/invoices/" +:+ uuidv4 e)
                 +:+ " to activate or renew your subscription.")) s1)
    end.
Proof.
  intros Hget Haddr Hfree Huser. unfold createInvoice. rewrite Hget. simpl.
  destruct address as [|a rest]; [done|].
  unfold insert_invoice. simpl. rewrite Hfree. simpl. rewrite Huser.
  by destruct (sendEmail e (email u)).
Qed.

Lemma createInvoice_address_missing e userId subscriptionId p s :
  (∀ address, GET_NEW_PAYMENT_ADDRESS e = RpcResult address -> address = "") ->
  ∃ err, createInvoice e userId subscriptionId (Some p) s
         = (Pending, log (UnhandledRejection err) s).
Proof.
  intros Hno. unfold createInvoice.
  destruct (GET_NEW_PAYMENT_ADDRESS e) as [err| |address] eqn:Hget; simpl.
  - by eexists.
  - by eexists.
  - rewrite (Hno address eq_refl). by eexists.
Qed.

(** X17.  With an address from the node, a free guid, a known user and a
    working mailer, [createInvoice] resolves, has inserted one unpaid invoice
    with nothing paid, due one year after its issue date, for the cost of the
    product and bound to the subscription it was given, and has sent the one
    email that carries the URL of the invoice. *)
Theorem createInvoice_success e userId subscriptionId p s address u :
  GET_NEW_PAYMENT_ADDRESS e = RpcResult address ->
  address ≠ "" ->
  invoices s !! uuidv4 e = None ->
  users s !! userId = Some u ->
  sendEmail e (email u) = None ->
  let res := createInvoice e userId subscriptionId (Some p) s in
  let dueDate := setFullYear (now e) (getFullYear (now e) + 1) in
  let invoiceUrl := "https://app." +:+ SERVICE_DOMAIN e +:+ "/invoices/" +:+ uuidv4 e in
  res.1 = Resolved (mkCreatedInvoice (uuidv4 e) subscriptionId (now e) dueDate
                      (cost p) address unpaid)
  /\ invoices res.2
     = <[uuidv4 e := mkInvoice (uuidv4 e) subscriptionId (now e) dueDate (cost p)
                               0%float address unpaid]> (invoices s)
  /\ subscriptions res.2 = subscriptions s /\ payments res.2 = payments s
  /\ users res.2 = users s
  /\ trace res.2
     = (trace s
        ++ [EmailSent (email u) "Your Invoice"
              ("Please pay the invoice at " +:+ invoiceUrl
               +:+ " to activate or renew your subscription.")])%list
  /\ (valid (now e) -> valid dueDate /\ JsDate.key (now e) < JsDate.key dueDate).
Proof.
  intros Hget Haddr Hfree Huser Hmail res dueDate invoiceUrl. subst res.
  rewrite (createInvoice_with_address e userId subscriptionId p s address u)
    by done.
  rewrite Hmail. simpl. split_and!; try done.
  intros Hv. by apply setFullYear_later.
Qed.

(** The subscription row [createSubscription] writes. *)
Lemma createSubscription_inserts productsConfig insertId startDate e userId productKey
    (data : gmap string json) s p :
  property productsConfig productKey = Some p ->
  subscriptions s !! insertId = None ->
  let row :=
    mkSubscription insertId userId productKey startDate
      (setFullYear startDate (getFullYear startDate + 1)) pending
      (mkSubscriptionData (product_cmd p) (data ∪ {["userId" := JNumber userId]})) in
  let s1 := with_subscriptions (<[insertId := row]> (subscriptions s)) s in
  createSubscription productsConfig insertId startDate e userId productKey data s
  = match createInvoice e userId (Some insertId) (Some p) s1 with
    | (Resolved _, s2) => (Resolved insertId, s2)
    | (Rejected err, s2) =>
        (Rejected err,
         log (ConsoleError "Error creating invoice or sending email:" (Some err)) s2)
    | (Pending, s2) => (Pending, s2)
    end.
Proof.
  intros Hp Hfree. unfold createSubscription. rewrite Hp.
  unfold insert_subscription. simpl. by rewrite Hfree.
Qed.

Lemma property_own (productsConfig : gmap string Product) productKey p :
  productsConfig !! productKey = Some p ->
  property productsConfig productKey = Some p.
Proof. intros H. unfold property. by rewrite H. Qed.

Lemma property_inherited (productsConfig : gmap string Product) productKey :
  productsConfig !! productKey = None ->
  productKey ∈ Object_prototype ->
  property productsConfig productKey = Some (mkProduct None None).
Proof.
  intros H Hin. unfold property. by rewrite H, bool_decide_eq_true_2.
Qed.

(** X18.  When everything works, [createSubscription] resolves with the id
    the storage gave, and the store holds one more subscription, pending,
    running for one year from the start date and carrying the command of the
    product and the caller's data with the user id, and one more invoice,
    unpaid, for the cost of the product and bound to that subscription; one
    email went out. *)
Theorem createSubscription_success productsConfig insertId startDate e userId
    productKey (data : gmap string json) s p address u :
  productsConfig !! productKey = Some p ->
  subscriptions s !! insertId = None ->
  GET_NEW_PAYMENT_ADDRESS e = RpcResult address ->
  address ≠ "" ->
  invoices s !! uuidv4 e = None ->
  users s !! userId = Some u ->
  sendEmail e (email u) = None ->
  let res :=
    createSubscription productsConfig insertId startDate e userId productKey data s in
  let row :=
    mkSubscription insertId userId productKey startDate
      (setFullYear startDate (getFullYear startDate + 1)) pending
      (mkSubscriptionData (product_cmd p) (data ∪ {["userId" := JNumber userId]})) in
  res.1 = Resolved insertId
  /\ subscriptions res.2 = <[insertId := row]> (subscriptions s)
  /\ invoices res.2
     = <[uuidv4 e := mkInvoice (uuidv4 e) (Some insertId) (now e)
                       (setFullYear (now e) (getFullYear (now e) + 1)) (cost p)
                       0%float address unpaid]> (invoices s)
  /\ payments res.2 = payments s
  /\ length (trace res.2) = S (length (trace s))
  /\ (valid startDate -> dates_ordered row)
  /\ (subscriptions_keyed s -> subscriptions_keyed res.2).
Proof.
  intros Hp%property_own Hfree Hget Haddr Hguid Huser Hmail res row. subst res.
  rewrite (createSubscription_inserts productsConfig insertId startDate e userId
             productKey data s p) by done.
  rewrite (createInvoice_with_address e userId (Some insertId) p _ address u)
    by done.
  rewrite Hmail. simpl. split_and!; try done.
  - rewrite length_app. simpl. lia.
  - intros Hv. destruct (setFullYear_later startDate Hv) as [Hv' Hlt].
    unfold dates_ordered. simpl. split_and!; try done. lia.
  - intros Hk k r Hr. simpl in Hr. destruct (decide (k = insertId)) as [->|Hne].
    + rewrite lookup_insert_eq in Hr. by injection Hr as <-.
    + rewrite lookup_insert_ne in Hr by done. by apply Hk.
Qed.

(** X19.  What [createSubscription] does for the keys that are not products
    and when a collaborator fails, the id being free.  A key that the
    catalogue neither holds nor inherits: it rejects and nothing is written
    or logged.  A key the catalogue only inherits from [Object.prototype],
    [toString] for one: the lookup gives a value, and with a working node and
    mailer the call resolves, having stored a subscription without command
    and an invoice without amount due.  A product and a node that hands out
    no address: the subscription row is there, pending, there is no invoice,
    and the promise never settles.  A product and a mailer that fails: it
    rejects with the mailer's error, and both the subscription and its
    invoice are there. *)
Theorem createSubscription_failures productsConfig insertId startDate e userId
    productKey (data : gmap string json) s :
  subscriptions s !! insertId = None ->
  let res :=
    createSubscription productsConfig insertId startDate e userId productKey data s in
  (productsConfig !! productKey = None -> productKey ∉ Object_prototype ->
     res = (Rejected (Error "Product not found."), s))
  /\ (∀ address u,
        productsConfig !! productKey = None -> productKey ∈ Object_prototype ->
        GET_NEW_PAYMENT_ADDRESS e = RpcResult address -> address ≠ "" ->
        invoices s !! uuidv4 e = None ->
        users s !! userId = Some u ->
        sendEmail e (email u) = None ->
        res.1 = Resolved insertId
        /\ subscriptions res.2 !! insertId
           = Some (mkSubscription insertId userId productKey startDate
                     (setFullYear startDate (getFullYear startDate + 1)) pending
                     (mkSubscriptionData None (data ∪ {["userId" := JNumber userId]})))
        /\ invoices res.2 !! uuidv4 e
           = Some (mkInvoice (uuidv4 e) (Some insertId) (now e)
                     (setFullYear (now e) (getFullYear (now e) + 1)) None
                     0%float address unpaid))
  /\ (∀ p, productsConfig !! productKey = Some p ->
        (∀ address, GET_NEW_PAYMENT_ADDRESS e = RpcResult address -> address = "") ->
        res.1 = Pending
        /\ (status <$> subscriptions res.2 !! insertId) = Some pending
        /\ invoices res.2 = invoices s)
  /\ (∀ p address u err,
        productsConfig !! productKey = Some p ->
        GET_NEW_PAYMENT_ADDRESS e = RpcResult address -> address ≠ "" ->
        invoices s !! uuidv4 e = None ->
        users s !! userId = Some u ->
        sendEmail e (email u) = Some err ->
        res.1 = Rejected err
        /\ (status <$> subscriptions res.2 !! insertId) = Some pending
        /\ (invoice_state <$> invoices res.2 !! uuidv4 e) = Some unpaid).
Proof.
  intros Hfree res. split_and!.
  - intros Hp Hnin. subst res. unfold createSubscription, property.
    by rewrite Hp, bool_decide_eq_false_2.
  - intros address u Hp Hin Hget Haddr Hguid Huser Hmail. subst res.
    rewrite (createSubscription_inserts productsConfig insertId startDate e userId
               productKey data s (mkProduct None None))
      by (by try apply property_inherited).
    rewrite (createInvoice_with_address e userId (Some insertId) (mkProduct None None)
               _ address u) by done.
    rewrite Hmail. simpl. by rewrite !lookup_insert_eq.
  - intros p Hp%property_own Hno. subst res.
    rewrite (createSubscription_inserts productsConfig insertId startDate e userId
               productKey data s p) by done.
    destruct (createInvoice_address_missing e userId (Some insertId) p
                (with_subscriptions
                   (<[insertId :=
                        mkSubscription insertId userId productKey startDate
                          (setFullYear startDate (getFullYear startDate + 1)) pending
                          (mkSubscriptionData (product_cmd p)
                             (data ∪ {["userId" := JNumber userId]}))]>
                      (subscriptions s)) s) Hno) as [err' ->].
    simpl. by rewrite lookup_insert_eq.
  - intros p address u err Hp%property_own Hget Haddr Hguid Huser Hmail. subst res.
    rewrite (createSubscription_inserts productsConfig insertId startDate e userId
               productKey data s p) by done.
    rewrite (createInvoice_with_address e userId (Some insertId) p _ address u)
      by done.
    rewrite Hmail. simpl. by rewrite !lookup_insert_eq.
Qed.

(** ** From subscription to activation *)

(** X20.  The life of a subscription that is paid for: created by
    [createSubscription], then polled when the node lists confirmed
    transactions at the address of its invoice whose total, the doubles
    added in the order of the list, is neither zero nor not a number and
    not below the cost of the product (0 for a product without cost), the
    subscription is active, its invoice is paid and holds the total, and the
    command of the product was sent once, with the caller's data, the user
    id where the data has no [userId], and the id of the subscription where
    the data has no [subscriptionId]: a [subscriptionId] of the data is sent
    in its place. *)
Theorem subscribe_then_pay productsConfig insertId startDate e userId productKey
    (data : gmap string json) s p address u e2 l :
  productsConfig !! productKey = Some p ->
  subscriptions s !! insertId = None ->
  GET_NEW_PAYMENT_ADDRESS e = RpcResult address ->
  address ≠ "" ->
  invoices s !! uuidv4 e = None ->
  users s !! userId = Some u ->
  sendEmail e (email u) = None ->
  GET_TRANSACTIONS e2 address = RpcResult l ->
  (confirmed_sum l =? 0)%float = false ->
  PrimFloat.is_nan (confirmed_sum l) = false ->
  (default 0 (cost p) <=? confirmed_sum l)%float = true ->
  let a :=
    (data ∪ {["userId" := JNumber userId]})
    ∪ {["subscriptionId" := JNumber insertId]} in
  activation e2 (product_cmd p) a = None ->
  let s1 :=
    (createSubscription productsConfig insertId startDate e userId productKey data s).2 in
  let res := checkForPayment e2 (uuidv4 e) s1 in
  (status <$> subscriptions s1 !! insertId) = Some pending
  /\ (∃ inv, res.1 = Resolved inv)
  /\ (status <$> subscriptions res.2 !! insertId) = Some active
  /\ (invoice_state <$> invoices res.2 !! uuidv4 e) = Some paid
  /\ (amount_paid <$> invoices res.2 !! uuidv4 e) = Some (confirmed_sum l)
  /\ dispatches (product_cmd p) a res.2 = S (dispatches (product_cmd p) a s)
  /\ a !! "subscriptionId"
     = Some (default (JNumber insertId) (data !! "subscriptionId"))
  /\ a !! "userId" = Some (default (JNumber userId) (data !! "userId")).
Proof.
  intros Hp%property_own Hfree Hget Haddr Hguid Huser Hmail Hlist H0 Hn Hle a Hact s1 res.
  pose proof (falsy_false _ H0 Hn) as Hnz.
  set (row := mkSubscription insertId userId productKey startDate
                (setFullYear startDate (getFullYear startDate + 1)) pending
                (mkSubscriptionData (product_cmd p)
                   (data ∪ {["userId" := JNumber userId]}))).
  set (inv := mkInvoice (uuidv4 e) (Some insertId) (now e)
                (setFullYear (now e) (getFullYear (now e) + 1)) (cost p) 0%float
                address unpaid).
  assert (Hs1 : subscriptions s1 !! insertId = Some row
                /\ invoices s1 !! uuidv4 e = Some inv
                /\ dispatches (product_cmd p) a s1 = dispatches (product_cmd p) a s).
  { subst s1.
    rewrite (createSubscription_inserts productsConfig insertId startDate e userId
               productKey data s p) by done.
    rewrite (createInvoice_with_address e userId (Some insertId) p _ address u)
      by done.
    rewrite Hmail. simpl. rewrite !lookup_insert_eq. split_and!; [done..|].
    rewrite dispatches_log, decide_False by done. unfold dispatches. simpl. lia. }
  destruct Hs1 as (Hrow & Hinv & Hd).
  destruct (settlement_state e2 (uuidv4 e) s1 inv insertId row l)
    as (H1 & H2 & H3 & H4 & _); try done.
  fold res in H1, H2, H3, H4.
  split_and!.
  - by rewrite Hrow.
  - by exists inv.
  - by rewrite H3.
  - by rewrite H2.
  - by rewrite H2.
  - change (activation_arguments row) with a in H4. simpl in H4. by rewrite H4, Hd.
  - subst a. rewrite !lookup_union, lookup_singleton_eq.
    rewrite lookup_singleton_ne by done.
    by destruct (data !! "subscriptionId").
  - subst a. rewrite !lookup_union, lookup_singleton_eq.
    rewrite lookup_singleton_ne by done.
    by destruct (data !! "userId").
Qed.

(** ** The properties on the sample data *)

#[local] Ltac evaluate :=
  first [ vm_compute; reflexivity
        | vm_compute; discriminate
        | let H := fresh in intros H; vm_compute in H; discriminate H ].

Lemma sample_keyed (r : subscription) (s : state) :
  id r = 7 -> subscriptions_keyed (with_subscriptions {[7 := r]} s).
Proof.
  intros Hid k r' H. simpl in H. apply lookup_singleton_Some in H.
  by destruct H as [<- <-].
Qed.

Lemma checkForPayment_settles_iff_witness :
  invoice_state <$>
    invoices (checkForPayment Sample.overpaying "inv-1" Fixture.fresh).2 !! "inv-1"
  = Some paid
  /\ (confirmed_sum [mkTransaction "A" 100000000000 true 100 0;
                     mkTransaction "B" 700000000000 true 101 0] <? 8 / 10)%float = true
  /\ invoice_state <$>
       invoices (checkForPayment Sample.two_parts "inv-1"
                   Sample.eight_tenths_due).2 !! "inv-1"
     ≠ Some paid.
Proof.
  split_and!.
  - apply (checkForPayment_settles_iff Sample.overpaying "inv-1" Fixture.fresh
             Fixture.the_invoice); [evaluate | reflexivity |].
    exists [Fixture.coin "A" 6].
    split_and!; [reflexivity | evaluate | evaluate | evaluate].
  - evaluate.
  - intros H.
    apply (checkForPayment_settles_iff Sample.two_parts "inv-1" Sample.eight_tenths_due
             (mkInvoice "inv-1" (Some 7) Fixture.jan_1_2024 (mkDate 2025 0 1 0)
                        (Some (8 / 10)%float) 0 "xch1pay" unpaid)) in H;
      [|evaluate|reflexivity].
    destruct H as (l & Hl & _ & _ & Hge). injection Hl as <-.
    vm_compute in Hge. discriminate Hge.
Defined.

Lemma checkForPayment_settlement_witness :
  let res := checkForPayment Sample.overpaying "inv-1" Fixture.fresh in
  let a := payload (data Fixture.the_subscription) ∪ {["subscriptionId" := JNumber 7]} in
  res.1 = Resolved Fixture.the_invoice
  /\ invoices res.2 !! "inv-1"
     = Some (mkInvoice "inv-1" (Some 7) Fixture.jan_1_2024 (mkDate 2025 0 1 0)
                       (Some 5%float) (confirmed_sum [Fixture.coin "A" 6])
                       "xch1pay" paid)
  /\ subscriptions res.2 !! 7
     = Some (mkSubscription 7 1 "basic" (mkDate 2023 0 1 0) Fixture.jan_1_2024 active
               (mkSubscriptionData (Some "CREATE_MIRROR") {["userId" := JNumber 1]}))
  /\ dispatches (Some "CREATE_MIRROR") a res.2
     = S (dispatches (Some "CREATE_MIRROR") a Fixture.fresh)
  /\ settlements "inv-1" res.2 = S (settlements "inv-1" Fixture.fresh).
Proof.
  apply (checkForPayment_settlement Sample.overpaying "inv-1" Fixture.fresh
           Fixture.the_invoice 7 Fixture.the_subscription [Fixture.coin "A" 6]);
    try reflexivity; evaluate.
Defined.

Lemma settlement_is_not_retried_witness :
  (checkForPayment Sample.overpaying "inv-1" Sample.orphan).1
  = Rejected (Error "Subscription not found.")
  /\ subscriptions (checkForPayment Sample.overpaying "inv-1" Sample.orphan).2
     = subscriptions Sample.orphan.
Proof.
  apply (settlement_is_not_retried Sample.overpaying "inv-1" Sample.orphan
           Fixture.the_invoice [Fixture.coin "A" 6]); try reflexivity; evaluate.
Defined.

Lemma confirmPayment_activates_any_status_witness :
  status Fixture.the_subscription = grace_period
  /\ status <$>
       subscriptions (confirmPayment Sample.overpaying "inv-1" Fixture.fresh).2 !! 7
     = Some active.
Proof.
  split; [reflexivity|].
  apply (confirmPayment_activates_any_status Sample.overpaying "inv-1" Fixture.fresh
           Fixture.the_invoice 7 Fixture.the_subscription); try reflexivity; evaluate.
Defined.

Lemma confirmPayment_dispatches_each_time_witness :
  let s1 := (confirmPayment Sample.overpaying "inv-1" Fixture.fresh).2 in
  let s2 := (confirmPayment Sample.overpaying "inv-1" s1).2 in
  let a := payload (data Fixture.the_subscription) ∪ {["subscriptionId" := JNumber 7]} in
  dispatches (Some "CREATE_MIRROR") a s1
  = S (dispatches (Some "CREATE_MIRROR") a Fixture.fresh)
  /\ dispatches (Some "CREATE_MIRROR") a s2
     = S (S (dispatches (Some "CREATE_MIRROR") a Fixture.fresh)).
Proof.
  apply (confirmPayment_dispatches_each_time Sample.overpaying Sample.overpaying
           "inv-1" Fixture.fresh Fixture.the_invoice 7 Fixture.the_subscription);
    try reflexivity; evaluate.
Defined.

Lemma renew_times_adds_years_witness :
  end_date <$> subscriptions (renew_times 3 7 Fixture.fresh) !! 7
  = Some (mkDate 2027 0 1 0).
Proof.
  apply (renew_times_adds_years 3 7 Fixture.fresh Fixture.the_subscription).
  - evaluate.
  - discriminate.
  - unfold valid. simpl. lia.
  - simpl. lia.
Defined.

Lemma renewSubscription_keeps_dates_ordered_witness :
  ∃ r', subscriptions (renewSubscription 7 Fixture.fresh).2 !! 7 = Some r'
        /\ dates_ordered r'
        /\ JsDate.key (end_date Fixture.the_subscription) < JsDate.key (end_date r').
Proof.
  apply (renewSubscription_keeps_dates_ordered 7 Fixture.fresh
           Fixture.the_subscription).
  - evaluate.
  - discriminate.
  - unfold dates_ordered, valid, JsDate.key. simpl. lia.
Defined.

Lemma terminateSubscription_effect_witness :
  let res := terminateSubscription 7 Fixture.fresh in
  res.1
  = Resolved (mkSubscription 7 1 "basic" (mkDate 2023 0 1 0) Fixture.jan_1_2024
                terminated
                (mkSubscriptionData (Some "CREATE_MIRROR") {["userId" := JNumber 1]}))
  /\ status <$> subscriptions res.2 !! 7 = Some terminated.
Proof.
  destruct (terminateSubscription_effect 7 Fixture.fresh) as [_ H].
  destruct (H Fixture.the_subscription ltac:(evaluate)) as (H1 & _ & H3 & _).
  split; [exact H1 | exact H3].
Defined.

Lemma checkSubscriptionsForExpiration_creates_nothing_witness :
  (checkSubscriptionsForExpiration (Fixture.world []) (λ _, Fixture.world [])
     Fixture.expiring_soon).1 = Pending
  /\ (checkSubscriptionsForExpiration (Fixture.world []) (λ _, Fixture.world [])
        Fixture.fresh).1 = Resolved tt.
Proof.
  split.
  - apply (checkSubscriptionsForExpiration_creates_nothing (Fixture.world [])
             (λ _, Fixture.world []) Fixture.expiring_soon).
    evaluate.
  - apply (checkSubscriptionsForExpiration_creates_nothing (Fixture.world [])
             (λ _, Fixture.world []) Fixture.fresh).
    evaluate.
Defined.

Lemma terminated_subscription_is_not_renewed_witness :
  let s1 := (terminateSubscription 7 Fixture.fresh).2 in
  (renewSubscription 7 s1).1 = Rejected (Error "Cannot renew a terminated subscription")
  /\ subscriptions (renewSubscription 7 s1).2 !! 7
     = Some (set_status terminated Fixture.the_subscription)
  /\ end_date (set_status terminated Fixture.the_subscription)
     = end_date Fixture.the_subscription.
Proof.
  apply (terminated_subscription_is_not_renewed 7 Fixture.fresh
           Fixture.the_subscription).
  evaluate.
Defined.

Lemma setSubscriptionsToGracePeriod_effect_witness :
  let res := setSubscriptionsToGracePeriod (Fixture.world []) Sample.ending_today in
  res.1 = Resolved 1
  /\ status <$> subscriptions res.2 !! 7 = Some grace_period.
Proof.
  pose proof (setSubscriptionsToGracePeriod_effect (Fixture.world [])
                Sample.ending_today
                ltac:(apply sample_keyed; reflexivity)) as (H1 & _ & _ & _ & H2 & _).
  split.
  - rewrite H1. vm_compute. reflexivity.
  - rewrite (H2 7 (set_status active Fixture.the_subscription)).
    + reflexivity.
    + vm_compute. reflexivity.
    + split; [split; reflexivity|]. exists (mkUser "ann@example.org").
      vm_compute. reflexivity.
Defined.

Lemma setSubscriptionsToGracePeriod_twice_witness :
  let s1 := (setSubscriptionsToGracePeriod (Fixture.world []) Sample.ending_today).2 in
  setSubscriptionsToGracePeriod (Fixture.world []) s1 = (Resolved 0, s1).
Proof.
  apply (setSubscriptionsToGracePeriod_twice (Fixture.world []) (Fixture.world [])
           Sample.ending_today).
  - by apply sample_keyed.
  - reflexivity.
Defined.

Lemma createInvoice_success_witness :
  (createInvoice (Fixture.world []) 1 (Some 7) (Some Fixture.the_product)
     Fixture.fresh).1
  = Resolved (mkCreatedInvoice "inv-2" (Some 7) Fixture.jan_1_2024 (mkDate 2025 0 1 0)
                (Some 5%float) "xch1new" unpaid).
Proof.
  apply (createInvoice_success (Fixture.world []) 1 (Some 7) Fixture.the_product
           Fixture.fresh "xch1new" (mkUser "ann@example.org"));
    try reflexivity; evaluate.
Defined.

Lemma createSubscription_success_witness :
  (Sample.subscribe (Fixture.world [])).1 = Resolved 8.
Proof.
  apply (createSubscription_success Sample.catalogue 8 Fixture.jan_1_2024
           (Fixture.world []) 1 "basic" ∅ Fixture.fresh Fixture.the_product
           "xch1new" (mkUser "ann@example.org")); try reflexivity; evaluate.
Defined.

Lemma createSubscription_failures_witness :
  ((Sample.subscribe Fixture.world_without_address).1 = Pending
   /\ (status <$> subscriptions (Sample.subscribe Fixture.world_without_address).2 !! 8)
      = Some pending
   /\ invoices (Sample.subscribe Fixture.world_without_address).2
      = invoices Fixture.fresh)
  /\ (let res :=
        createSubscription Sample.catalogue 8 Fixture.jan_1_2024 (Fixture.world []) 1
                           "toString" ∅ Fixture.fresh in
      res.1 = Resolved 8
      /\ subscriptions res.2 !! 8
         = Some (mkSubscription 8 1 "toString" Fixture.jan_1_2024 (mkDate 2025 0 1 0)
                   pending (mkSubscriptionData None {["userId" := JNumber 1]}))
      /\ invoices res.2 !! "inv-2"
         = Some (mkInvoice "inv-2" (Some 8) Fixture.jan_1_2024 (mkDate 2025 0 1 0)
                           None 0 "xch1new" unpaid))
  /\ createSubscription Sample.catalogue 8 Fixture.jan_1_2024 (Fixture.world []) 1
                        "premium" ∅ Fixture.fresh
     = (Rejected (Error "Product not found."), Fixture.fresh).
Proof.
  split; [|split].
  - pose proof (createSubscription_failures Sample.catalogue 8 Fixture.jan_1_2024
                  Fixture.world_without_address 1 "basic" ∅ Fixture.fresh
                  ltac:(evaluate)) as (_ & _ & H & _).
    apply (H Fixture.the_product); [evaluate|]. intros address H'. discriminate H'.
  - pose proof (createSubscription_failures Sample.catalogue 8 Fixture.jan_1_2024
                  (Fixture.world []) 1 "toString" ∅ Fixture.fresh
                  ltac:(evaluate)) as (_ & H & _).
    assert (Hin : "toString" ∈ Object_prototype)
      by (apply (bool_decide_unpack _); vm_compute; reflexivity).
    destruct (H "xch1new" (mkUser "ann@example.org") ltac:(evaluate) Hin
                ltac:(reflexivity) ltac:(discriminate) ltac:(evaluate)
                ltac:(evaluate) ltac:(reflexivity)) as (H1 & H2 & H3).
    cbv zeta. split_and!; [exact H1 | rewrite H2; evaluate | exact H3].
  - pose proof (createSubscription_failures Sample.catalogue 8 Fixture.jan_1_2024
                  (Fixture.world []) 1 "premium" ∅ Fixture.fresh
                  ltac:(evaluate)) as (H & _).
    apply H; [evaluate|].
    apply (bool_decide_unpack _). vm_compute. reflexivity.
Defined.

Lemma subscribe_then_pay_witness :
  let s1 := (Sample.subscribe (Fixture.world [])).2 in
  let res := checkForPayment Sample.overpaying "inv-2" s1 in
  let a := {["userId" := JNumber 1; "subscriptionId" := JNumber 8]} in
  (status <$> subscriptions s1 !! 8) = Some pending
  /\ (status <$> subscriptions res.2 !! 8) = Some active
  /\ (invoice_state <$> invoices res.2 !! "inv-2") = Some paid
  /\ dispatches (Some "CREATE_MIRROR") a res.2
     = S (dispatches (Some "CREATE_MIRROR") a Fixture.fresh).
Proof.
  pose proof (subscribe_then_pay Sample.catalogue 8 Fixture.jan_1_2024 (Fixture.world [])
                1 "basic" ∅ Fixture.fresh Fixture.the_product "xch1new"
                (mkUser "ann@example.org") Sample.overpaying [Fixture.coin "A" 6]
                ltac:(evaluate) ltac:(evaluate) ltac:(reflexivity) ltac:(discriminate)
                ltac:(evaluate) ltac:(evaluate) ltac:(reflexivity) ltac:(reflexivity)
                ltac:(evaluate) ltac:(evaluate) ltac:(evaluate) ltac:(reflexivity))
    as (H1 & _ & H3 & H4 & _ & H6 & _).
  split_and!; [exact H1 | exact H3 | exact H4 |].
  assert (Ha : (∅ ∪ {["userId" := JNumber 1]}) ∪ {["subscriptionId" := JNumber 8]}
               = ({["userId" := JNumber 1; "subscriptionId" := JNumber 8]}
                  : gmap string json)) by (vm_compute; reflexivity).
  rewrite Ha in H6. exact H6.
Defined.

(** ** Keys *)

Lemma alter_keeps_keyed (f : subscription -> subscription) (m : gmap Z subscription) j :
  (∀ r, id (f r) = id r) ->
  (∀ k r, m !! k = Some r -> id r = k) ->
  ∀ k r, alter f j m !! k = Some r -> id r = k.
Proof.
  intros Hf Hm k r. destruct (decide (j = k)) as [->|Hne].
  - rewrite lookup_alter_eq. destruct (m !! k) as [r0|] eqn:Hr0; [|done].
    simpl. intros [= <-]. rewrite Hf. by apply Hm.
  - rewrite lookup_alter_ne by done. apply Hm.
Qed.

Lemma confirmPayment_invoices e g s :
  invoices (confirmPayment e g s).2 = invoices s
  \/ ∃ inv, invoices s !! g = Some inv
            /\ invoices (confirmPayment e g s).2
               = <[g := set_invoice_state paid inv]> (invoices s).
Proof.
  pose proof (confirmPayment_cases e g s) as H. simpl in H.
  destruct (invoices s !! g) as [inv|] eqn:Hinv; [|rewrite H; by left].
  right. exists inv. split; [done|].
  destruct (subscription_id inv ≫= _) as [r|]; [|by rewrite H].
  destruct (activation e (cmd (data r)) (activation_arguments r)); by rewrite H.
Qed.

Lemma confirmPayment_payments e g s :
  payments (confirmPayment e g s).2 = payments s.
Proof.
  pose proof (confirmPayment_cases e g s) as H. simpl in H.
  destruct (invoices s !! g) as [inv|] eqn:Hinv; [|by rewrite H].
  destruct (subscription_id inv ≫= _) as [r|]; [|by rewrite H].
  destruct (activation e (cmd (data r)) (activation_arguments r)); by rewrite H.
Qed.

Lemma createInvoice_tables e userId subscriptionId product s :
  let s' := (createInvoice e userId subscriptionId product s).2 in
  subscriptions s' = subscriptions s /\ payments s' = payments s
  /\ (invoices s' = invoices s
      \/ ∃ row, guid row = uuidv4 e
                /\ invoices s' = <[uuidv4 e := row]> (invoices s)).
Proof.
  unfold createInvoice. destruct product as [p|]; [|by split_and!; [..|left]].
  destruct (result_of (GET_NEW_PAYMENT_ADDRESS e)) as [err|[address|]]; simpl;
    [by split_and!; [..|left]| |by split_and!; [..|left]].
  destruct address as [|a rest]; [by split_and!; [..|left]|].
  unfold insert_invoice. simpl.
  destruct (invoices s !! uuidv4 e); simpl; [by split_and!; [..|left]|].
  destruct (users s !! userId) as [u|]; simpl.
  - destruct (sendEmail e (email u)); simpl;
      (split_and!; [done..|right; eexists; split; [|reflexivity]; reflexivity]).
  - split_and!; [done..|right; eexists; split; [|reflexivity]; reflexivity].
Qed.

(** X24.  Every operation keeps the rows under their keys: if each
    subscription sits under its id, each invoice under its guid and each
    payment under its invoice guid and coin name, the same holds after a
    poll, a settlement, a renewal, a termination, the grace period scan and
    a subscription. *)
Theorem operations_keep_keys s :
  well_keyed s ->
  (∀ e g, well_keyed (checkForPayment e g s).2)
  /\ (∀ e g, well_keyed (confirmPayment e g s).2)
  /\ (∀ k, well_keyed (renewSubscription k s).2)
  /\ (∀ k, well_keyed (terminateSubscription k s).2)
  /\ (∀ e, well_keyed (setSubscriptionsToGracePeriod e s).2)
  /\ (∀ cfg i d e u k data, well_keyed (createSubscription cfg i d e u k data s).2).
Proof.
  intros (Hs & Hi & Hp). split_and!.
  - intros e g. split_and!.
    + destruct (checkForPayment_subscriptions e g s) as [H|[j H]];
        unfold subscriptions_keyed; rewrite H; [done|].
      by apply alter_keeps_keyed.
    + destruct (poll_frame e g s) as (_ & Ho & Hn & Hh & _).
      intros g' inv' H. destruct (decide (g' = g)) as [->|Hne].
      * destruct (invoices s !! g) as [inv|] eqn:Hinv.
        -- destruct (Hh inv eq_refl) as (a & st & Hnew). rewrite Hnew in H.
           injection H as <-. simpl. by apply Hi.
        -- rewrite Hn in H; done.
      * rewrite Ho in H by done. by apply Hi.
    + by apply payments_keyed_poll.
  - intros e g. split_and!.
    + destruct (confirmPayment_subscriptions e g s) as [H|[j H]];
        unfold subscriptions_keyed; rewrite H; [done|].
      by apply alter_keeps_keyed.
    + destruct (confirmPayment_invoices e g s) as [H|(inv & Hinv & H)];
        unfold invoices_keyed; rewrite H; [done|].
      intros g' inv'. destruct (decide (g = g')) as [->|Hne].
      * rewrite lookup_insert_eq. intros [= <-]. simpl. by apply Hi.
      * rewrite lookup_insert_ne by done. apply Hi.
    + unfold payments_keyed. by rewrite confirmPayment_payments.
  - intros k. unfold renewSubscription.
    destruct (subscriptions s !! k) as [r|]; [|done].
    destruct (decide _); [done|]. split_and!; [|done..].
    unfold subscriptions_keyed. simpl. by apply alter_keeps_keyed.
  - intros k. unfold terminateSubscription.
    destruct (subscriptions s !! k) as [r|]; [|done]. split_and!; [|done..].
    unfold subscriptions_keyed. simpl. by apply alter_keeps_keyed.
  - intros e. destruct (setSubscriptionsToGracePeriod_tables e s) as (H1 & H2 & H3 & _).
    split_and!.
    + unfold subscriptions_keyed. rewrite H1.
      match goal with |- context [foldr _ _ ?l] => generalize l end.
      intros ids. induction ids as [|j ids IH]; [done|].
      simpl. by apply alter_keeps_keyed.
    + unfold invoices_keyed. by rewrite H2.
    + unfold payments_keyed. by rewrite H3.
  - intros cfg i d e u k data.
    destruct (property cfg k) as [p|] eqn:Hcfg.
    2:{ unfold createSubscription. by rewrite Hcfg. }
    destruct (subscriptions s !! i) eqn:Hfree.
    { unfold createSubscription, insert_subscription. rewrite Hcfg. simpl.
      by rewrite Hfree. }
    rewrite (createSubscription_inserts cfg i d e u k data s p) by done.
    set (s1 := with_subscriptions _ s).
    assert (H1 : well_keyed s1).
    { split_and!; [|done..]. intros k' r'. subst s1. simpl.
      destruct (decide (i = k')) as [->|Hne].
      - rewrite lookup_insert_eq. by intros [= <-].
      - rewrite lookup_insert_ne by done. apply Hs. }
    destruct H1 as (Hs1 & Hi1 & Hp1).
    destruct (createInvoice_tables e u (Some i) (Some p) s1) as (Ha & Hb & Hc).
    assert (H2 : well_keyed (createInvoice e u (Some i) (Some p) s1).2).
    { split_and!.
      - unfold subscriptions_keyed. by rewrite Ha.
      - destruct Hc as [Hc|(row & Hg & Hc)]; unfold invoices_keyed; rewrite Hc;
          [done|].
        intros g' inv'. destruct (decide (uuidv4 e = g')) as [<-|Hne].
        + rewrite lookup_insert_eq. by intros [= <-].
        + rewrite lookup_insert_ne by done. apply Hi1.
      - unfold payments_keyed. by rewrite Hb. }
    by destruct (createInvoice e u (Some i) (Some p) s1) as [[?|?|] s2].
Qed.

Lemma fresh_well_keyed : well_keyed Fixture.fresh.
Proof.
  split_and!.
  - intros k r H. simpl in H. apply lookup_singleton_Some in H.
    by destruct H as [<- <-].
  - intros k r H. simpl in H. apply lookup_singleton_Some in H.
    by destruct H as [<- <-].
  - intros k r H. simpl in H. by rewrite lookup_empty in H.
Qed.

Lemma operations_keep_keys_witness :
  well_keyed (checkForPayment Sample.overpaying "inv-1" Fixture.fresh).2.
Proof.
  apply (operations_keep_keys Fixture.fresh fresh_well_keyed).
Defined.

(** ** Paying in instalments *)

(** X25.  An invoice paid in two steps.  A poll whose confirmed total, the
    doubles added in the order of the list, is neither zero nor not a number
    and stays below the amount due stores the total and leaves the invoice
    unpaid and the subscriptions as they were; a later poll whose total is
    not below the amount due stores it, with the status paid, stores the
    subscription with the status active and sends the command, once; any
    poll of the invoice after that changes nothing. *)
Theorem instalments_settle_once e1 e2 e3 g s inv sid r l1 l2 :
  invoices s !! g = Some inv ->
  invoice_state inv = unpaid ->
  subscription_id inv = Some sid ->
  subscriptions s !! sid = Some r ->
  id r = sid ->
  GET_TRANSACTIONS e1 (xch_payment_address inv) = RpcResult l1 ->
  (confirmed_sum l1 =? 0)%float = false ->
  PrimFloat.is_nan (confirmed_sum l1) = false ->
  (default 0 (total_amount_due inv) <=? confirmed_sum l1)%float = false ->
  GET_TRANSACTIONS e2 (xch_payment_address inv) = RpcResult l2 ->
  (confirmed_sum l2 =? 0)%float = false ->
  PrimFloat.is_nan (confirmed_sum l2) = false ->
  (default 0 (total_amount_due inv) <=? confirmed_sum l2)%float = true ->
  let a := payload (data r) ∪ {["subscriptionId" := JNumber sid]} in
  activation e2 (cmd (data r)) a = None ->
  let s1 := (checkForPayment e1 g s).2 in
  let s2 := (checkForPayment e2 g s1).2 in
  (invoices s1 !! g
   = Some (mkInvoice (guid inv) (subscription_id inv) (issue_date inv) (due_date inv)
                     (total_amount_due inv) (confirmed_sum l1)
                     (xch_payment_address inv) unpaid)
   /\ subscriptions s1 = subscriptions s
   /\ settlements g s1 = settlements g s)
  /\ (invoices s2 !! g
      = Some (mkInvoice (guid inv) (subscription_id inv) (issue_date inv) (due_date inv)
                        (total_amount_due inv) (confirmed_sum l2)
                        (xch_payment_address inv) paid)
      /\ subscriptions s2 !! sid
         = Some (mkSubscription (id r) (user_id r) (product_key r) (start_date r)
                                (end_date r) active (data r))
      /\ settlements g s2 = S (settlements g s)
      /\ dispatches (cmd (data r)) a s2 = S (dispatches (cmd (data r)) a s))
  /\ (checkForPayment e3 g s2).2 = s2.
Proof.
  intros Hinv Hst Hsid Hr Hid Hg1 H01 Hn1 Hlt1 Hg2 H02 Hn2 Hle2 a.
  pose proof (falsy_false _ H01 Hn1) as Hnz1.
  pose proof (falsy_false _ H02 Hn2) as Hnz2.
  change (ge (confirmed_sum l1) (total_amount_due inv) = false) in Hlt1.
  change (ge (confirmed_sum l2) (total_amount_due inv) = true) in Hle2.
  assert (Ha : a = activation_arguments r)
    by (subst a; unfold activation_arguments; by rewrite Hid).
  rewrite Ha. intros Hact s1 s2.
  assert (H1 : invoices s1 !! g = Some (set_amount_paid (confirmed_sum l1) inv)
               /\ subscriptions s1 = subscriptions s
               /\ trace s1 = trace s).
  { subst s1. rewrite (checkForPayment_unpaid e1 g s inv l1 Hinv Hst Hg1).
    rewrite Hnz1, Hlt1.
    destruct (insert_loop_frame l1 g 0%float s) as (Hsub & Hinvs & _ & Htr).
    simpl. split_and!; try done. by rewrite lookup_alter_eq, Hinvs, Hinv. }
  destruct H1 as (Hi1 & Hs1 & Ht1).
  destruct (settlement_state e2 g s1 (set_amount_paid (confirmed_sum l1) inv) sid r l2)
    as (_ & Hi2 & Hs2 & Hd2 & Hc2); try done.
  { by rewrite Hs1. }
  subst s2.
  split_and!; try done.
  - rewrite Hi1. unfold set_amount_paid. by rewrite Hst.
  - by apply settlements_trace.
  - rewrite Hc2. f_equal. by apply settlements_trace.
  - rewrite Hd2. f_equal. unfold dispatches. by rewrite Ht1.
  - by rewrite (checkForPayment_paid e3 g _ _ Hi2).
Qed.

Lemma instalments_settle_once_witness :
  let w1 := Fixture.world [Fixture.coin "A" 3] in
  let w2 := Fixture.world [Fixture.coin "A" 3; Fixture.coin "B" 3] in
  let s1 := (checkForPayment w1 "inv-1" Fixture.fresh).2 in
  let s2 := (checkForPayment w2 "inv-1" s1).2 in
  (invoice_state <$> invoices s1 !! "inv-1" = Some unpaid
   /\ amount_paid <$> invoices s1 !! "inv-1" = Some 3%float)
  /\ (invoice_state <$> invoices s2 !! "inv-1" = Some paid
      /\ amount_paid <$> invoices s2 !! "inv-1" = Some 6%float
      /\ status <$> subscriptions s2 !! 7 = Some active)
  /\ (checkForPayment w2 "inv-1" s2).2 = s2.
Proof.
  pose proof (instalments_settle_once (Fixture.world [Fixture.coin "A" 3])
           (Fixture.world [Fixture.coin "A" 3; Fixture.coin "B" 3])
           (Fixture.world [Fixture.coin "A" 3; Fixture.coin "B" 3])
           "inv-1" Fixture.fresh Fixture.the_invoice 7 Fixture.the_subscription
           [Fixture.coin "A" 3] [Fixture.coin "A" 3; Fixture.coin "B" 3]
           ltac:(evaluate) ltac:(reflexivity) ltac:(reflexivity) ltac:(evaluate)
           ltac:(reflexivity) ltac:(reflexivity) ltac:(evaluate) ltac:(evaluate)
           ltac:(evaluate) ltac:(reflexivity) ltac:(evaluate) ltac:(evaluate)
           ltac:(evaluate) ltac:(reflexivity))
    as ((H1 & _) & (H2 & H3 & _) & H4).
  split_and!.
  - by rewrite H1.
  - rewrite H1. vm_compute. reflexivity.
  - by rewrite H2.
  - rewrite H2. vm_compute. reflexivity.
  - by rewrite H3.
  - exact H4.
Defined.
